(** * Kudu: CFile metadata records and the master's entity dump

    A shallow embedding of
    - [kudu/cfile/cfile.proto]: the proto2 records of a CFile (header,
      footer, block pointers, B-tree handles, index-block trailers, bloom
      headers), each with the parser that the proto2 language gives it;
    - [kudu/master/master-path-handlers.cc]: the [JsonDumper] visitor,
      [HandleDumpEntities], and the page of the tables,
      [HandleCatalogManager].

    The first part holds the definitions, the second part the lemmas. *)

From Stdlib Require Import ZArith Lia.
From Stdlib Require OrderedTypeEx.
From Stdlib.Strings Require Import Byte.
From stdpp Require Import prelude strings pretty sorting.

Local Open Scope Z_scope.

(** ** The proto2 wire format

    A serialized message is a sequence of fields; each field starts with a
    varint tag [(number << 3) | wire_type]. *)
Module wire.

Definition byte_val (b : byte) : Z := Z.of_N (Byte.to_N b).

#[global] Instance byte_eq_decision : EqDecision byte := Byte.byte_eq_dec.

(** What a field carries on the wire.  A group (wire types 3 and 4) is only
    ever skipped: no message of cfile.proto declares one. *)
Inductive WireValue :=
| VARINT (v : Z)
| FIXED64 (v : Z)
| LENGTH_DELIMITED (payload : list byte)
| GROUP
| FIXED32 (v : Z).

Definition Field : Type := Z * WireValue.

(** Base-128 varint: seven payload bits per byte, least significant group
    first, the top bit of a byte says that another byte follows.  At most
    [n] bytes are read. *)
Fixpoint ReadVarint (n : nat) (shift : Z) (bs : list byte) : option (Z * list byte) :=
  match n, bs with
  | S n', b :: rest =>
      let v := Z.shiftl (Z.land (byte_val b) 127) shift in
      if Z.testbit (byte_val b) 7
      then '(hi, rest') ← ReadVarint n' (shift + 7) rest; Some (Z.lor v hi, rest')
      else Some (v, rest)
  | _, _ => None
  end.

(** A varint is at most ten bytes long and is kept as an unsigned 64-bit
    value. *)
Definition ReadVarint64 (bs : list byte) : option (Z * list byte) :=
  '(v, rest) ← ReadVarint 10 0 bs; Some (v mod 2 ^ 64, rest).

(** Tags and lengths are the low 32 bits of a varint. *)
Definition ReadVarint32 (bs : list byte) : option (Z * list byte) :=
  '(v, rest) ← ReadVarint64 bs; Some (v mod 2 ^ 32, rest).

Fixpoint ReadLittleEndian (n : nat) (bs : list byte) : option (Z * list byte) :=
  match n with
  | O => Some (0, bs)
  | S n' =>
      match bs with
      | [] => None
      | b :: rest =>
          '(v, rest') ← ReadLittleEndian n' rest; Some (byte_val b + 256 * v, rest')
      end
  end.

(** The payload of a length-delimited field.  The length is an [int]: one
    with the sign bit set is refused, as is one past the end of the input. *)
Definition ReadBytes (len : Z) (bs : list byte) : option (list byte * list byte) :=
  if (2 ^ 31 <=? len) || (Z.of_nat (length bs) <? len) then None
  else Some (take (Z.to_nat len) bs, drop (Z.to_nat len) bs).

(** The fields of a message, up to the end of the input ([group = None]) or,
    inside a group that is being skipped, up to its END_GROUP tag
    ([group = Some number]).  A tag that is zero is refused; an END_GROUP
    tag outside its group is refused.  Every field consumes at least its tag,
    so [S (length bs)] units of fuel are enough ([ReadFields_fuel]).  The
    limit that the library puts on the depth of nested groups is left out. *)
Fixpoint ReadFields (fuel : nat) (group : option Z) (bs : list byte)
  : option (list Field * list byte) :=
  match fuel with
  | O => None
  | S fuel' =>
      match bs with
      | [] => if group is None then Some ([], []) else None
      | _ =>
          '(tag, rest) ← ReadVarint32 bs;
          let number := Z.shiftr tag 3 in
          let wire_type := Z.land tag 7 in
          if tag =? 0 then None
          else if wire_type =? 4 then
            if decide (group = Some number) then Some ([], rest) else None
          else
            '(v, rest') ←
              (if wire_type =? 0 then
                 '(v, r) ← ReadVarint64 rest; Some (VARINT v, r)
               else if wire_type =? 1 then
                 '(v, r) ← ReadLittleEndian 8 rest; Some (FIXED64 v, r)
               else if wire_type =? 2 then
                 '(len, r) ← ReadVarint32 rest;
                 '(payload, r') ← ReadBytes len r; Some (LENGTH_DELIMITED payload, r')
               else if wire_type =? 3 then
                 '(_, r) ← ReadFields fuel' (Some number) rest; Some (GROUP, r)
               else if wire_type =? 5 then
                 '(v, r) ← ReadLittleEndian 4 rest; Some (FIXED32 v, r)
               else None);
            '(fs, rest'') ← ReadFields fuel' group rest';
            Some ((number, v) :: fs, rest'')
      end
  end.

Definition ReadMessage (bs : list byte) : option (list Field) :=
  '(fs, _) ← ReadFields (S (length bs)) None bs; Some fs.

(** How a varint is read into a field of a given scalar type. *)
Definition int64_of_varint (v : Z) : Z :=
  let w := v mod 2 ^ 64 in if w <? 2 ^ 63 then w else w - 2 ^ 64.

Definition int32_of_varint (v : Z) : Z :=
  let w := v mod 2 ^ 32 in if w <? 2 ^ 31 then w else w - 2 ^ 32.

Definition bool_of_varint (v : Z) : bool := negb (v =? 0).

(** The writers that go with the readers above. *)
Definition byte_of (v : Z) : byte := default x00 (Byte.of_N (Z.to_N v)).

Fixpoint WriteVarint (n : nat) (v : Z) : list byte :=
  match n with
  | O => []
  | S n' =>
      if v <? 128 then [byte_of v]
      else byte_of (128 + v mod 128) :: WriteVarint n' (v / 128)
  end.

(** A negative [int32] or [int64] is written as its 64-bit two's
    complement: ten bytes. *)
Definition WriteVarint64 (v : Z) : list byte := WriteVarint 10 (v mod 2 ^ 64).

Fixpoint WriteLittleEndian (n : nat) (v : Z) : list byte :=
  match n with
  | O => []
  | S n' => byte_of (v mod 256) :: WriteLittleEndian n' (v / 256)
  end.

Definition WriteTag (number wire_type : Z) : list byte :=
  WriteVarint64 (Z.lor (Z.shiftl number 3) wire_type).

Definition WriteVarintField (number v : Z) : list byte :=
  WriteTag number 0 ++ WriteVarint64 v.

Definition WriteBytesField (number : Z) (payload : list byte) : list byte :=
  WriteTag number 2 ++ WriteVarint64 (Z.of_nat (length payload)) ++ payload.

(** The bytes of a field that is there, nothing for one that is not. *)
Definition WriteOptional {A : Type} (write : A → list byte) (o : option A) : list byte :=
  from_option write [] o.

(** Merging the fields of the input into a message, one after the other; a
    field that cannot be merged makes the parse fail. *)
Fixpoint MergeFields {M : Type} (merge : M → Field → option M)
    (m : M) (fs : list Field) : option M :=
  match fs with
  | [] => Some m
  | f :: fs' => m' ← merge m f; MergeFields merge m' fs'
  end.

(** The field numbers on the wire. *)
Definition numbers (fs : list Field) : list Z := fst <$> fs.

End wire.

Import wire.

(** ** kudu/cfile/cfile.proto

    One module per message.  A message in memory is a record of its fields;
    a singular field is an [option] (the has-bit and the member of the
    generated class), a repeated field a list.  [Clear] is the empty
    message, [MergeField] merges one field of the input, [IsInitialized]
    says that every required field is there, also in the embedded messages,
    and [ParseFromString] is the parser: merge into the empty message,
    then refuse a message that is not initialized.  The record holds the
    declared fields only: the set of unknown fields that the generated
    class keeps beside them is left out. *)
Module cfile.

Definition has {A : Type} (o : option A) : bool :=
  if o is Some _ then true else false.

(** cfile.proto line 21 imports kudu/common/common.proto, which declares the
    enumerations [DataType], [EncodingType] and [CompressionType] and is not
    among the sources: the sets of their declared numbers, and the number of
    [NO_COMPRESSION], are parameters.  An enumeration field is kept as its
    number, as the generated class does. *)
Class CommonProto := {
  DataType_IsValid : Z → bool;
  EncodingType_IsValid : Z → bool;
  CompressionType_IsValid : Z → bool;
  NO_COMPRESSION : Z;
}.

(** message FileMetadataPairPB (lines 23-26) *)
Module FileMetadataPairPB.

Record t := mk { key_ : option (list byte); value_ : option (list byte) }.

Definition Clear : t := mk None None.

Definition has_key (m : t) : bool := has (key_ m).
Definition has_value (m : t) : bool := has (value_ m).
Definition key (m : t) : list byte := default [] (key_ m).
Definition value (m : t) : list byte := default [] (value_ m).

Definition MergeField (m : t) (f : Field) : option t :=
  match f with
  | (n, LENGTH_DELIMITED payload) =>
      if n =? 1 then Some (mk (Some payload) (value_ m))
      else if n =? 2 then Some (mk (key_ m) (Some payload))
      else Some m
  | _ => Some m
  end.

Definition MergePartialFromString (m : t) (bs : list byte) : option t :=
  fs ← ReadMessage bs; MergeFields MergeField m fs.

Definition IsInitialized (m : t) : bool := has_key m && has_value m.

Definition ParseFromString (bs : list byte) : option t :=
  m ← MergePartialFromString Clear bs;
  if IsInitialized m then Some m else None.

Definition SerializeToString (m : t) : list byte :=
  WriteOptional (WriteBytesField 1) (key_ m)
  ++ WriteOptional (WriteBytesField 2) (value_ m).

End FileMetadataPairPB.

(** message CFileHeaderPB (lines 28-33) *)
Module CFileHeaderPB.

Record t := mk {
  major_version_ : option Z;
  minor_version_ : option Z;
  metadata_ : list FileMetadataPairPB.t;
}.

Definition Clear : t := mk None None [].

Definition has_major_version (m : t) : bool := has (major_version_ m).
Definition has_minor_version (m : t) : bool := has (minor_version_ m).
Definition major_version (m : t) : Z := default 0 (major_version_ m).
Definition minor_version (m : t) : Z := default 0 (minor_version_ m).
Definition metadata (m : t) : list FileMetadataPairPB.t := metadata_ m.

Definition MergeField (m : t) (f : Field) : option t :=
  match f with
  | (n, VARINT v) =>
      if n =? 1 then Some (mk (Some (int32_of_varint v)) (minor_version_ m) (metadata_ m))
      else if n =? 2 then Some (mk (major_version_ m) (Some (int32_of_varint v)) (metadata_ m))
      else Some m
  | (n, LENGTH_DELIMITED payload) =>
      if n =? 3 then
        pair ← FileMetadataPairPB.MergePartialFromString FileMetadataPairPB.Clear payload;
        Some (mk (major_version_ m) (minor_version_ m) (metadata_ m ++ [pair]))
      else Some m
  | _ => Some m
  end.

Definition MergePartialFromString (m : t) (bs : list byte) : option t :=
  fs ← ReadMessage bs; MergeFields MergeField m fs.

Definition IsInitialized (m : t) : bool :=
  has_major_version m && has_minor_version m
  && forallb FileMetadataPairPB.IsInitialized (metadata_ m).

Definition ParseFromString (bs : list byte) : option t :=
  m ← MergePartialFromString Clear bs;
  if IsInitialized m then Some m else None.

Definition SerializeToString (m : t) : list byte :=
  WriteOptional (WriteVarintField 1) (major_version_ m)
  ++ WriteOptional (WriteVarintField 2) (minor_version_ m)
  ++ concat ((λ pair, WriteBytesField 3 (FileMetadataPairPB.SerializeToString pair))
               <$> metadata_ m).

End CFileHeaderPB.

(** message BlockPointerPB (lines 35-38) *)
Module BlockPointerPB.

Record t := mk { offset_ : option Z; size_ : option Z }.

Definition Clear : t := mk None None.

Definition has_offset (m : t) : bool := has (offset_ m).
Definition has_size (m : t) : bool := has (size_ m).
Definition offset (m : t) : Z := default 0 (offset_ m).
Definition size (m : t) : Z := default 0 (size_ m).

Definition MergeField (m : t) (f : Field) : option t :=
  match f with
  | (n, VARINT v) =>
      if n =? 1 then Some (mk (Some (int64_of_varint v)) (size_ m))
      else if n =? 2 then Some (mk (offset_ m) (Some (int32_of_varint v)))
      else Some m
  | _ => Some m
  end.

Definition MergePartialFromString (m : t) (bs : list byte) : option t :=
  fs ← ReadMessage bs; MergeFields MergeField m fs.

Definition IsInitialized (m : t) : bool := has_offset m && has_size m.

Definition ParseFromString (bs : list byte) : option t :=
  m ← MergePartialFromString Clear bs;
  if IsInitialized m then Some m else None.

Definition SerializeToString (m : t) : list byte :=
  WriteOptional (WriteVarintField 1) (offset_ m)
  ++ WriteOptional (WriteVarintField 2) (size_ m).

End BlockPointerPB.

(** message BTreeInfoPB (lines 40-42) *)
Module BTreeInfoPB.

Record t := mk { root_block_ : option BlockPointerPB.t }.

Definition Clear : t := mk None.

Definition has_root_block (m : t) : bool := has (root_block_ m).
Definition root_block (m : t) : BlockPointerPB.t :=
  default BlockPointerPB.Clear (root_block_ m).

(** A second occurrence of an embedded message is merged into the first. *)
Definition MergeField (m : t) (f : Field) : option t :=
  match f with
  | (n, LENGTH_DELIMITED payload) =>
      if n =? 1 then
        ptr ← BlockPointerPB.MergePartialFromString (root_block m) payload;
        Some (mk (Some ptr))
      else Some m
  | _ => Some m
  end.

Definition MergePartialFromString (m : t) (bs : list byte) : option t :=
  fs ← ReadMessage bs; MergeFields MergeField m fs.

Definition IsInitialized (m : t) : bool :=
  has_root_block m && BlockPointerPB.IsInitialized (root_block m).

Definition ParseFromString (bs : list byte) : option t :=
  m ← MergePartialFromString Clear bs;
  if IsInitialized m then Some m else None.

Definition SerializeToString (m : t) : list byte :=
  WriteOptional (λ ptr, WriteBytesField 1 (BlockPointerPB.SerializeToString ptr))
    (root_block_ m).

End BTreeInfoPB.

(** message IndexBlockTrailerPB (lines 44-53) *)
Module IndexBlockTrailerPB.

Inductive BlockType := UNKNOWN | LEAF | INTERNAL.

Definition BlockType_number (ty : BlockType) : Z :=
  match ty with UNKNOWN => 999 | LEAF => 0 | INTERNAL => 1 end.

(** The declared value with a given number, if there is one. *)
Definition BlockType_of_number (n : Z) : option BlockType :=
  if n =? 999 then Some UNKNOWN
  else if n =? 0 then Some LEAF
  else if n =? 1 then Some INTERNAL
  else None.

Definition BlockType_IsValid (n : Z) : bool := has (BlockType_of_number n).

Record t := mk { num_entries_ : option Z; type_ : option BlockType }.

Definition Clear : t := mk None None.

Definition has_num_entries (m : t) : bool := has (num_entries_ m).
Definition has_type (m : t) : bool := has (type_ m).
Definition num_entries (m : t) : Z := default 0 (num_entries_ m).
(** An enumeration field without a declared default has the first declared
    value as its default. *)
Definition type (m : t) : BlockType := default UNKNOWN (type_ m).

(** A number that the enumeration does not declare goes to the unknown
    fields of the message: the field itself is left as it was. *)
Definition MergeField (m : t) (f : Field) : option t :=
  match f with
  | (n, VARINT v) =>
      if n =? 1 then Some (mk (Some (int32_of_varint v)) (type_ m))
      else if n =? 2 then
        match BlockType_of_number (int32_of_varint v) with
        | Some ty => Some (mk (num_entries_ m) (Some ty))
        | None => Some m
        end
      else Some m
  | _ => Some m
  end.

Definition MergePartialFromString (m : t) (bs : list byte) : option t :=
  fs ← ReadMessage bs; MergeFields MergeField m fs.

Definition IsInitialized (m : t) : bool := has_num_entries m && has_type m.

Definition ParseFromString (bs : list byte) : option t :=
  m ← MergePartialFromString Clear bs;
  if IsInitialized m then Some m else None.

Definition SerializeToString (m : t) : list byte :=
  WriteOptional (WriteVarintField 1) (num_entries_ m)
  ++ WriteOptional (λ ty, WriteVarintField 2 (BlockType_number ty)) (type_ m).

End IndexBlockTrailerPB.

(** message CFileFooterPB (lines 56-75) *)
Module CFileFooterPB.

Record t := mk {
  data_type_ : option Z;
  encoding_ : option Z;
  num_values_ : option Z;
  posidx_info_ : option BTreeInfoPB.t;
  validx_info_ : option BTreeInfoPB.t;
  compression_ : option Z;
  metadata_ : list FileMetadataPairPB.t;
  is_type_nullable_ : option bool;
  dict_block_ptr_ : option BlockPointerPB.t;
}.

Definition Clear : t := mk None None None None None None [] None None.

Definition has_data_type (m : t) : bool := has (data_type_ m).
Definition has_encoding (m : t) : bool := has (encoding_ m).
Definition has_num_values (m : t) : bool := has (num_values_ m).
Definition has_posidx_info (m : t) : bool := has (posidx_info_ m).
Definition has_validx_info (m : t) : bool := has (validx_info_ m).
Definition has_compression (m : t) : bool := has (compression_ m).
Definition has_is_type_nullable (m : t) : bool := has (is_type_nullable_ m).
Definition has_dict_block_ptr (m : t) : bool := has (dict_block_ptr_ m).

Definition num_values (m : t) : Z := default 0 (num_values_ m).
Definition posidx_info (m : t) : BTreeInfoPB.t :=
  default BTreeInfoPB.Clear (posidx_info_ m).
Definition validx_info (m : t) : BTreeInfoPB.t :=
  default BTreeInfoPB.Clear (validx_info_ m).
Definition metadata (m : t) : list FileMetadataPairPB.t := metadata_ m.
(** [default=false] *)
Definition is_type_nullable (m : t) : bool := default false (is_type_nullable_ m).
Definition dict_block_ptr (m : t) : BlockPointerPB.t :=
  default BlockPointerPB.Clear (dict_block_ptr_ m).

Definition set_data_type (m : t) (v : Z) : t :=
  mk (Some v) (encoding_ m) (num_values_ m) (posidx_info_ m) (validx_info_ m)
     (compression_ m) (metadata_ m) (is_type_nullable_ m) (dict_block_ptr_ m).
Definition set_encoding (m : t) (v : Z) : t :=
  mk (data_type_ m) (Some v) (num_values_ m) (posidx_info_ m) (validx_info_ m)
     (compression_ m) (metadata_ m) (is_type_nullable_ m) (dict_block_ptr_ m).
Definition set_num_values (m : t) (v : Z) : t :=
  mk (data_type_ m) (encoding_ m) (Some v) (posidx_info_ m) (validx_info_ m)
     (compression_ m) (metadata_ m) (is_type_nullable_ m) (dict_block_ptr_ m).
Definition set_posidx_info (m : t) (v : BTreeInfoPB.t) : t :=
  mk (data_type_ m) (encoding_ m) (num_values_ m) (Some v) (validx_info_ m)
     (compression_ m) (metadata_ m) (is_type_nullable_ m) (dict_block_ptr_ m).
Definition set_validx_info (m : t) (v : BTreeInfoPB.t) : t :=
  mk (data_type_ m) (encoding_ m) (num_values_ m) (posidx_info_ m) (Some v)
     (compression_ m) (metadata_ m) (is_type_nullable_ m) (dict_block_ptr_ m).
Definition set_compression (m : t) (v : Z) : t :=
  mk (data_type_ m) (encoding_ m) (num_values_ m) (posidx_info_ m) (validx_info_ m)
     (Some v) (metadata_ m) (is_type_nullable_ m) (dict_block_ptr_ m).
Definition add_metadata (m : t) (v : FileMetadataPairPB.t) : t :=
  mk (data_type_ m) (encoding_ m) (num_values_ m) (posidx_info_ m) (validx_info_ m)
     (compression_ m) (metadata_ m ++ [v]) (is_type_nullable_ m) (dict_block_ptr_ m).
Definition set_is_type_nullable (m : t) (v : bool) : t :=
  mk (data_type_ m) (encoding_ m) (num_values_ m) (posidx_info_ m) (validx_info_ m)
     (compression_ m) (metadata_ m) (Some v) (dict_block_ptr_ m).
Definition set_dict_block_ptr (m : t) (v : BlockPointerPB.t) : t :=
  mk (data_type_ m) (encoding_ m) (num_values_ m) (posidx_info_ m) (validx_info_ m)
     (compression_ m) (metadata_ m) (is_type_nullable_ m) (Some v).

Section WithCommonProto.
Context `{CommonProto}.

(** Without a declared default the first declared value would be the
    default; it is in common.proto, so these two accessors are only
    meaningful on a field that is there. *)
Definition data_type (m : t) : option Z := data_type_ m.
Definition encoding (m : t) : option Z := encoding_ m.
(** [default=NO_COMPRESSION] *)
Definition compression (m : t) : Z := default NO_COMPRESSION (compression_ m).

Definition set_enum (valid : Z → bool) (set : t → Z → t) (m : t) (v : Z) : t :=
  if valid (int32_of_varint v) then set m (int32_of_varint v) else m.

Definition MergeField (m : t) (f : Field) : option t :=
  match f with
  | (n, VARINT v) =>
      if n =? 1 then Some (set_enum DataType_IsValid set_data_type m v)
      else if n =? 2 then Some (set_enum EncodingType_IsValid set_encoding m v)
      else if n =? 3 then Some (set_num_values m (int64_of_varint v))
      else if n =? 6 then Some (set_enum CompressionType_IsValid set_compression m v)
      else if n =? 8 then Some (set_is_type_nullable m (bool_of_varint v))
      else Some m
  | (n, LENGTH_DELIMITED payload) =>
      if n =? 4 then
        info ← BTreeInfoPB.MergePartialFromString (posidx_info m) payload;
        Some (set_posidx_info m info)
      else if n =? 5 then
        info ← BTreeInfoPB.MergePartialFromString (validx_info m) payload;
        Some (set_validx_info m info)
      else if n =? 7 then
        pair ← FileMetadataPairPB.MergePartialFromString FileMetadataPairPB.Clear payload;
        Some (add_metadata m pair)
      else if n =? 9 then
        ptr ← BlockPointerPB.MergePartialFromString (dict_block_ptr m) payload;
        Some (set_dict_block_ptr m ptr)
      else Some m
  | _ => Some m
  end.

Definition MergePartialFromString (m : t) (bs : list byte) : option t :=
  fs ← ReadMessage bs; MergeFields MergeField m fs.

Definition IsInitialized (m : t) : bool :=
  has_data_type m && has_encoding m && has_num_values m
  && (if posidx_info_ m is Some info then BTreeInfoPB.IsInitialized info else true)
  && (if validx_info_ m is Some info then BTreeInfoPB.IsInitialized info else true)
  && forallb FileMetadataPairPB.IsInitialized (metadata_ m)
  && (if dict_block_ptr_ m is Some ptr then BlockPointerPB.IsInitialized ptr else true).

Definition ParseFromString (bs : list byte) : option t :=
  m ← MergePartialFromString Clear bs;
  if IsInitialized m then Some m else None.

End WithCommonProto.

Definition SerializeToString (m : t) : list byte :=
  WriteOptional (WriteVarintField 1) (data_type_ m)
  ++ WriteOptional (WriteVarintField 2) (encoding_ m)
  ++ WriteOptional (WriteVarintField 3) (num_values_ m)
  ++ WriteOptional (λ info, WriteBytesField 4 (BTreeInfoPB.SerializeToString info))
       (posidx_info_ m)
  ++ WriteOptional (λ info, WriteBytesField 5 (BTreeInfoPB.SerializeToString info))
       (validx_info_ m)
  ++ WriteOptional (WriteVarintField 6) (compression_ m)
  ++ concat ((λ pair, WriteBytesField 7 (FileMetadataPairPB.SerializeToString pair))
               <$> metadata_ m)
  ++ WriteOptional (λ b : bool, WriteVarintField 8 (if b then 1 else 0))
       (is_type_nullable_ m)
  ++ WriteOptional (λ ptr, WriteBytesField 9 (BlockPointerPB.SerializeToString ptr))
       (dict_block_ptr_ m).

End CFileFooterPB.

(** message BloomBlockHeaderPB (lines 78-80) *)
Module BloomBlockHeaderPB.

Record t := mk { num_hash_functions_ : option Z }.

Definition Clear : t := mk None.

Definition has_num_hash_functions (m : t) : bool := has (num_hash_functions_ m).
Definition num_hash_functions (m : t) : Z := default 0 (num_hash_functions_ m).

Definition MergeField (m : t) (f : Field) : option t :=
  match f with
  | (n, VARINT v) =>
      if n =? 1 then Some (mk (Some (int32_of_varint v))) else Some m
  | _ => Some m
  end.

Definition MergePartialFromString (m : t) (bs : list byte) : option t :=
  fs ← ReadMessage bs; MergeFields MergeField m fs.

Definition IsInitialized (m : t) : bool := has_num_hash_functions m.

Definition ParseFromString (bs : list byte) : option t :=
  m ← MergePartialFromString Clear bs;
  if IsInitialized m then Some m else None.

Definition SerializeToString (m : t) : list byte :=
  WriteOptional (WriteVarintField 1) (num_hash_functions_ m).

End BloomBlockHeaderPB.

End cfile.

(** An instance of the numbers of common.proto, for the examples. *)
Definition example_common : cfile.CommonProto := {|
  cfile.DataType_IsValid n := (0 <=? n) && (n <=? 13) || (n =? 999);
  cfile.EncodingType_IsValid n := (0 <=? n) && (n <=? 6) || (n =? 999);
  cfile.CompressionType_IsValid n := (0 <=? n) && (n <=? 4) || (n =? 999);
  cfile.NO_COMPRESSION := 1;
|}.

Import cfile.

(** ** kudu/master/master-path-handlers.cc: the entity dump *)
Module master.

(** A [Status] is OK or carries the text that [ToString] gives. *)
Inductive Status := OK | NotOK (text : string).

Definition ok (s : Status) : bool := if s is OK then true else false.
Definition ToString (s : Status) : string :=
  match s with OK => "OK" | NotOK text => text end.

(** The calls that reach a [JsonWriter], in order: what it has put on its
    stream so far. *)
Module JsonWriter.

Inductive Call :=
| CStartObject | CEndObject | CStartArray | CEndArray | CString (s : string).

Definition t : Type := list Call.

Definition StartObject (jw : t) : t := jw ++ [CStartObject].
Definition EndObject (jw : t) : t := jw ++ [CEndObject].
Definition StartArray (jw : t) : t := jw ++ [CStartArray].
Definition EndArray (jw : t) : t := jw ++ [CEndArray].
Definition String (s : string) (jw : t) : t := jw ++ [CString s].

End JsonWriter.

(** kudu/master/master.pb.h and kudu/consensus/metadata.pb.h are not among
    the sources: the enumerations [State] of the two catalog entries and
    [RaftPeerPB::MemberType] are kept as their numbers, and the numbers of
    [RUNNING] and the generated [_Name] functions are parameters. *)
Class MasterProto := {
  SysTablesEntryPB_RUNNING : Z;
  SysTablesEntryPB_State_Name : Z → string;
  SysTabletsEntryPB_RUNNING : Z;
  SysTabletsEntryPB_State_Name : Z → string;
  RaftPeerPB_MemberType_Name : Z → string;
}.

(** The fields of the catalog records that the dump reads. *)
Module HostPortPB.
Record t := mk { host : string; port : Z }.
End HostPortPB.

Module RaftPeerPB.
Record t := mk {
  permanent_uuid : string;
  member_type : Z;
  last_known_addr : HostPortPB.t;
}.
End RaftPeerPB.

Module RaftConfigPB.
Record t := mk { peers : list RaftPeerPB.t }.
End RaftConfigPB.

Module ConsensusStatePB.
Record t := mk { config : RaftConfigPB.t; leader_uuid_ : option string }.
Definition has_leader_uuid (m : t) : bool := has (leader_uuid_ m).
Definition leader_uuid (m : t) : string := default "" (leader_uuid_ m).
End ConsensusStatePB.

Module SysTablesEntryPB.
Record t := mk { name : string; state : Z }.
End SysTablesEntryPB.

Module SysTabletsEntryPB.
Record t := mk {
  state : Z;
  committed_consensus_state_ : option ConsensusStatePB.t;
}.
End SysTabletsEntryPB.

(** [Substitute("$0:$1", host, port)] *)
Definition Substitute_host_port (host : string) (port : Z) : string :=
  host +:+ ":" +:+ pretty port.

Section JsonDumper.
Context `{MasterProto}.

(** JsonDumper::VisitTable (lines 332-350) *)
Definition VisitTable (table_id : string) (metadata : SysTablesEntryPB.t)
    (jw : JsonWriter.t) : JsonWriter.t * Status :=
  if negb (SysTablesEntryPB.state metadata =? SysTablesEntryPB_RUNNING) then (jw, OK)
  else
    let jw := JsonWriter.StartObject jw in
    let jw := JsonWriter.String "table_id" jw in
    let jw := JsonWriter.String table_id jw in
    let jw := JsonWriter.String "table_name" jw in
    let jw := JsonWriter.String (SysTablesEntryPB.name metadata) jw in
    let jw := JsonWriter.String "state" jw in
    let jw := JsonWriter.String
                (SysTablesEntryPB_State_Name (SysTablesEntryPB.state metadata)) jw in
    let jw := JsonWriter.EndObject jw in
    (jw, OK).

(** The body of the loop over the peers (lines 374-387). *)
Definition dump_peer (jw : JsonWriter.t) (peer : RaftPeerPB.t) : JsonWriter.t :=
  let jw := JsonWriter.StartObject jw in
  let jw := JsonWriter.String "type" jw in
  let jw := JsonWriter.String
              (RaftPeerPB_MemberType_Name (RaftPeerPB.member_type peer)) jw in
  let jw := JsonWriter.String "server_uuid" jw in
  let jw := JsonWriter.String (RaftPeerPB.permanent_uuid peer) jw in
  let jw := JsonWriter.String "addr" jw in
  let jw := JsonWriter.String
              (Substitute_host_port
                 (HostPortPB.host (RaftPeerPB.last_known_addr peer))
                 (HostPortPB.port (RaftPeerPB.last_known_addr peer))) jw in
  JsonWriter.EndObject jw.

(** JsonDumper::VisitTablet (lines 352-398) *)
Definition VisitTablet (table_id tablet_id : string) (metadata : SysTabletsEntryPB.t)
    (jw : JsonWriter.t) : JsonWriter.t * Status :=
  if negb (SysTabletsEntryPB.state metadata =? SysTabletsEntryPB_RUNNING) then (jw, OK)
  else
    let jw := JsonWriter.StartObject jw in
    let jw := JsonWriter.String "table_id" jw in
    let jw := JsonWriter.String table_id jw in
    let jw := JsonWriter.String "tablet_id" jw in
    let jw := JsonWriter.String tablet_id jw in
    let jw := JsonWriter.String "state" jw in
    let jw := JsonWriter.String
                (SysTabletsEntryPB_State_Name (SysTabletsEntryPB.state metadata)) jw in
    let jw :=
      match SysTabletsEntryPB.committed_consensus_state_ metadata with
      | Some cs =>
          let jw := JsonWriter.String "replicas" jw in
          let jw := JsonWriter.StartArray jw in
          let jw := foldl dump_peer jw (RaftConfigPB.peers (ConsensusStatePB.config cs)) in
          let jw := JsonWriter.EndArray jw in
          if ConsensusStatePB.has_leader_uuid cs then
            let jw := JsonWriter.String "leader" jw in
            JsonWriter.String (ConsensusStatePB.leader_uuid cs) jw
          else jw
      | None => jw
      end in
    let jw := JsonWriter.EndObject jw in
    (jw, OK).

(** kudu/master/sys_catalog.h is not among the sources.  A scan of the
    catalog table hands its rows to the visitor one after the other, stops at
    the first row for which the visitor does not return OK, and otherwise
    returns the status of the scan itself; the rows that a scan reaches and
    that status are the parameters. *)
Record SysCatalogTable := {
  table_rows : list (string * SysTablesEntryPB.t);
  tables_scan : Status;
  tablet_rows : list (string * string * SysTabletsEntryPB.t);
  tablets_scan : Status;
}.

Fixpoint visit_rows {Row : Type} (visit : Row → JsonWriter.t → JsonWriter.t * Status)
    (rows : list Row) (scan : Status) (jw : JsonWriter.t) : JsonWriter.t * Status :=
  match rows with
  | [] => (jw, scan)
  | row :: rows' =>
      let '(jw', s) := visit row jw in
      if ok s then visit_rows visit rows' scan jw' else (jw', s)
  end.

Definition VisitTables (cat : SysCatalogTable) (jw : JsonWriter.t) : JsonWriter.t * Status :=
  visit_rows (λ row, VisitTable row.1 row.2) (table_rows cat) (tables_scan cat) jw.

Definition VisitTablets (cat : SysCatalogTable) (jw : JsonWriter.t) : JsonWriter.t * Status :=
  visit_rows (λ row, VisitTablet row.1.1 row.1.2 row.2) (tablet_rows cat) (tablets_scan cat) jw.

(** JsonError (lines 404-411): [out->str("")] drops what the stream holds. *)
Definition JsonError (s : Status) (out : JsonWriter.t) : JsonWriter.t :=
  let jw : JsonWriter.t := [] in
  let jw := JsonWriter.StartObject jw in
  let jw := JsonWriter.String "error" jw in
  let jw := JsonWriter.String (ToString s) jw in
  JsonWriter.EndObject jw.

(** MasterPathHandlers::HandleDumpEntities (lines 414-440); the result is
    what [output] holds when the handler returns. *)
Definition HandleDumpEntities (cat : SysCatalogTable) : JsonWriter.t :=
  let jw : JsonWriter.t := [] in
  let jw := JsonWriter.StartObject jw in
  let jw := JsonWriter.String "tables" jw in
  let jw := JsonWriter.StartArray jw in
  let '(jw, s) := VisitTables cat jw in
  if negb (ok s) then JsonError s jw
  else
    let jw := JsonWriter.EndArray jw in
    let jw := JsonWriter.String "tablets" jw in
    let jw := JsonWriter.StartArray jw in
    let '(jw, s) := VisitTablets cat jw in
    if negb (ok s) then JsonError s jw
    else
      let jw := JsonWriter.EndArray jw in
      JsonWriter.EndObject jw.

(** What one visit writes, on its own. *)
Definition table_object (row : string * SysTablesEntryPB.t) : JsonWriter.t :=
  (VisitTable row.1 row.2 []).1.
Definition tablet_object (row : string * string * SysTabletsEntryPB.t) : JsonWriter.t :=
  (VisitTablet row.1.1 row.1.2 row.2 []).1.

(** The rows of the catalog whose state is RUNNING. *)
Definition running_table (row : string * SysTablesEntryPB.t) : bool :=
  SysTablesEntryPB.state row.2 =? SysTablesEntryPB_RUNNING.
Definition running_tablet (row : string * string * SysTabletsEntryPB.t) : bool :=
  SysTabletsEntryPB.state row.2 =? SysTabletsEntryPB_RUNNING.

Definition running_only (cat : SysCatalogTable) : SysCatalogTable := {|
  table_rows := filter (λ row, running_table row = true) (table_rows cat);
  tables_scan := tables_scan cat;
  tablet_rows := filter (λ row, running_tablet row = true) (tablet_rows cat);
  tablets_scan := tablets_scan cat;
|}.

End JsonDumper.

End master.

(** An instance of the numbers and names of master.proto, for the examples. *)
Definition example_master : master.MasterProto := {|
  master.SysTablesEntryPB_RUNNING := 2;
  master.SysTablesEntryPB_State_Name n :=
    if n =? 2 then "RUNNING" else if n =? 4 then "REMOVED" else "UNKNOWN";
  master.SysTabletsEntryPB_RUNNING := 2;
  master.SysTabletsEntryPB_State_Name n :=
    if n =? 2 then "RUNNING" else if n =? 4 then "DELETED" else "UNKNOWN";
  master.RaftPeerPB_MemberType_Name n := if n =? 0 then "VOTER" else "NON_VOTER";
|}.

Import master.

(** ** The writer and the reader of the specification

    The CFile writer, the CFile reader, the block encoders and the
    compressors are not among the sources.  What follows is modelled from
    the specification (sections 4.1, 4.4 and 4.6 to 4.8), on top of the
    records of cfile.proto above. *)
Module spec.

(** Section 7: the error kinds. *)
Inductive Error :=
| CorruptData | UnsupportedEncoding | UnsupportedCompression
| UnsupportedOperation | InvalidState | IOFailure.

Inductive Result (A : Type) := Ok (a : A) | Err (e : Error).
Arguments Ok {A} a.
Arguments Err {A} e.

#[global] Instance Result_bind : MBind Result := λ A B k r,
  match r with Ok a => k a | Err e => Err e end.

Definition or_fail {A : Type} (e : Error) (o : option A) : Result A :=
  match o with Some a => Ok a | None => Err e end.

Definition succeeded {A : Type} (r : Result A) : option A :=
  match r with Ok a => Some a | Err _ => None end.

(** The key of an index entry: an ordinal in the position index, a value in
    the value index (section 4.4). *)
Inductive Key (Value : Type) := Ordinal (i : Z) | First (v : Value).
Arguments Ordinal {Value} i.
Arguments First {Value} v.

Definition IndexEntry (Value : Type) : Type := Key Value * BlockPointerPB.t.

(** The blocks of a file before they are encoded and compressed. *)
Inductive Block (Value : Type) :=
| DataBlock (first_ordinal : Z) (values : list Value)
| DictionaryBlock (table : list Value)
| BloomBlock (header : BloomBlockHeaderPB.t) (values : list Value)
| IndexBlock (entries : list (IndexEntry Value)) (trailer : IndexBlockTrailerPB.t).
Arguments DataBlock {Value} first_ordinal values.
Arguments DictionaryBlock {Value} table.
Arguments BloomBlock {Value} header values.
Arguments IndexBlock {Value} entries trailer.

(** Modelled from the spec: the encoders of section 4.2, the compressors of
    section 4.3 and the serializers of the header and the footer are
    missing; their outputs are parameters, with the comparator of the values
    and the marker that ends a file (section 4.1).  Section 9 leaves the
    block size, the branching factor and the bloom sizing to the
    configuration. *)
Class Format (Value : Type) := {
  value_le : Value → Value → bool;
  dictionary_based : Z → bool;
  block_bytes : Z → Block Value → list byte;
  header_bytes : CFileHeaderPB.t → list byte;
  footer_bytes : CFileFooterPB.t → list byte;
  length_bytes : Z → list byte;
  magic : list byte;
}.

Record Options := {
  opt_data_type : Z;
  opt_encoding : Z;
  opt_compression : Z;
  opt_is_type_nullable : bool;
  opt_value_index : bool;
  opt_block_capacity : nat;
  opt_branching : nat;
  opt_num_hash_functions : Z;
}.

(** Modelled from the spec: the CFile writer of section 4.7, which is
    missing. *)
Module CFileWriter.

Inductive State := WRITING | FINISHING | FINISHED.

Section Writer.
Context {Value : Type} `{EqDecision Value} `{Format Value}.

(** What the writer remembers of a data block that it has flushed. *)
Record Flushed := {
  first_ordinal : Z;
  first_value : option Value;
  pointer : BlockPointerPB.t;
  bloom_values : list Value;
}.

Record t := mk {
  state : State;
  options : Options;
  file : list byte;
  pending : list Value;
  flushed : list Flushed;
  dictionary : option (list Value);
  num_values : Z;
}.

(** Modelled from the spec: the creation of a writer, which is missing.  A
    new file starts with its header; the dictionary builder exists when the
    declared encoding is dictionary-based (section 4.6). *)
Definition create (o : Options) (header : CFileHeaderPB.t) : t :=
  mk WRITING o (header_bytes header) [] []
     (if dictionary_based (opt_encoding o) then Some [] else None) 0.

(** Appending a block to the file gives the pointer to it. *)
Definition append_block (o : Options) (f : list byte) (b : Block Value)
  : list byte * BlockPointerPB.t :=
  let bytes := block_bytes (opt_compression o) b in
  (f ++ bytes,
   BlockPointerPB.mk (Some (Z.of_nat (length f))) (Some (Z.of_nat (length bytes)))).

Definition flush_data_block (w : t) : t :=
  match pending w with
  | [] => w
  | v :: _ =>
      let first := num_values w - Z.of_nat (length (pending w)) in
      let '(f, ptr) := append_block (options w) (file w) (DataBlock first (pending w)) in
      mk (state w) (options w) f []
         (flushed w ++ [Build_Flushed first (Some v) ptr (pending w)])
         (dictionary w) (num_values w)
  end.

(** Section 4.6: a value seen for the first time gets the next unused code,
    its place in the table. *)
Definition dictionary_add (table : list Value) (v : Value) : list Value :=
  if decide (v ∈ table) then table else table ++ [v].

Definition last_value (w : t) : option Value :=
  match last (pending w), last (flushed w) with
  | Some v, _ => Some v
  | None, Some b => last (bloom_values b)
  | None, None => None
  end.

Definition write_value (w : t) (v : Value) : Result t :=
  if opt_value_index (options w) &&
     (if last_value w is Some u then negb (value_le u v) else false)
  then Err InvalidState
  else
    let w' := mk (state w) (options w) (file w) (pending w ++ [v]) (flushed w)
                 ((λ table, dictionary_add table v) <$> dictionary w) (num_values w + 1) in
    Ok (if decide (opt_block_capacity (options w) ≤ length (pending w'))%nat
        then flush_data_block w' else w').

Fixpoint write_values (w : t) (values : list Value) : Result t :=
  match values with
  | [] => Ok w
  | v :: values' => w' ← write_value w v; write_values w' values'
  end.

(** Modelled from the spec: [write(values)] of the missing writer, only in
    state WRITING (sections 4.7 and 6). *)
Definition write (w : t) (values : list Value) : Result t :=
  match state w with
  | WRITING => write_values w values
  | _ => Err InvalidState
  end.

(** Section 4.4: the index blocks of one level, [branching] entries each;
    every block gives an entry of the level above. *)
Fixpoint write_level (fuel : nat) (o : Options) (ty : IndexBlockTrailerPB.BlockType)
    (entries : list (IndexEntry Value)) (f : list byte)
  : list byte * list (IndexEntry Value) :=
  match fuel, entries with
  | S fuel', (k, _) :: _ =>
      let chunk := take (opt_branching o) entries in
      let trailer := IndexBlockTrailerPB.mk (Some (Z.of_nat (length chunk))) (Some ty) in
      let '(f1, ptr) := append_block o f (IndexBlock chunk trailer) in
      let '(f2, parents) := write_level fuel' o ty (drop (opt_branching o) entries) f1 in
      (f2, (k, ptr) :: parents)
  | _, _ => (f, [])
  end.

(** The tree is built bottom-up until one block, the root, is left.  A file
    without data blocks has an empty leaf as its root. *)
Fixpoint build_index (fuel : nat) (o : Options) (ty : IndexBlockTrailerPB.BlockType)
    (entries : list (IndexEntry Value)) (f : list byte)
  : option (list byte * BTreeInfoPB.t) :=
  match entries with
  | [] =>
      let trailer := IndexBlockTrailerPB.mk (Some 0) (Some ty) in
      let '(f1, ptr) := append_block o f (IndexBlock [] trailer) in
      Some (f1, BTreeInfoPB.mk (Some ptr))
  | _ =>
      let '(f1, parents) := write_level (length entries) o ty entries f in
      match parents, fuel with
      | [(_, root)], _ => Some (f1, BTreeInfoPB.mk (Some root))
      | _, S fuel' => build_index fuel' o IndexBlockTrailerPB.INTERNAL parents f1
      | _, O => None
      end
  end.

Definition write_bloom_blocks (o : Options) (blocks : list Flushed) (f : list byte)
  : list byte :=
  foldl (λ f b,
           (append_block o f
              (BloomBlock (BloomBlockHeaderPB.mk (Some (opt_num_hash_functions o)))
                          (bloom_values b))).1)
        f blocks.

Definition value_entries (blocks : list Flushed) : list (IndexEntry Value) :=
  omap (λ b, (λ v, (First v, pointer b)) <$> first_value b) blocks.

(** Modelled from the spec: [finish()] of the missing writer (FINISHING,
    sections 4.1 and 4.7): the last data block, the dictionary block if
    there is a dictionary, the bloom blocks, the position index, the value
    index if it was asked for, then the footer, its length and the marker.
    The writer ends in FINISHED; the footer is returned with it. *)
Definition finish (w : t) : Result (t * CFileFooterPB.t) :=
  match state w with
  | WRITING =>
      let w := flush_data_block w in
      let o := options w in
      let '(f, dict_ptr) :=
        match dictionary w with
        | Some table =>
            let '(f, ptr) := append_block o (file w) (DictionaryBlock table) in
            (f, Some ptr)
        | None => (file w, None)
        end in
      let f := write_bloom_blocks o (flushed w) f in
      let posidx_entries := (λ b, (Ordinal (first_ordinal b), pointer b)) <$> flushed w in
      '(f, posidx) ←
        or_fail InvalidState
          (build_index (length (flushed w)) o IndexBlockTrailerPB.LEAF posidx_entries f);
      '(f, validx) ←
        (if opt_value_index o then
           '(f, info) ←
             or_fail InvalidState
               (build_index (length (flushed w)) o IndexBlockTrailerPB.LEAF
                  (value_entries (flushed w)) f);
           Ok (f, Some info)
         else Ok (f, None));
      let footer :=
        CFileFooterPB.mk (Some (opt_data_type o)) (Some (opt_encoding o))
          (Some (num_values w)) (Some posidx) validx (Some (opt_compression o)) []
          (Some (opt_is_type_nullable o)) dict_ptr in
      let fb := footer_bytes footer in
      let f := f ++ fb ++ length_bytes (Z.of_nat (length fb)) ++ magic in
      Ok (mk FINISHED o f [] (flushed w) (dictionary w) (num_values w), footer)
  | _ => Err InvalidState
  end.

(** Modelled from the spec: a write session of the missing writer, the
    batches in order, then [finish]. *)
Fixpoint write_all (w : t) (batches : list (list Value)) : Result t :=
  match batches with
  | [] => Ok w
  | values :: batches' => w' ← write w values; write_all w' batches'
  end.

Definition session (o : Options) (header : CFileHeaderPB.t)
    (batches : list (list Value)) : Result (t * CFileFooterPB.t) :=
  w ← write_all (create o header) batches; finish w.

(** What every step of a write session keeps: the writer is WRITING, its
    options are those it was created with, and it has a dictionary exactly
    when the declared encoding is dictionary-based. *)
Definition writing (o : Options) (w : t) : Prop :=
  state w = WRITING ∧ options w = o ∧
  has (dictionary w) = dictionary_based (opt_encoding o).

End Writer.
End CFileWriter.

(** Modelled from the spec: the CFile reader of sections 4.1, 4.4 and 4.8,
    which is missing, as far as seek-by-value needs it.  The decoders of the
    blocks (decompress, then decode) are parameters. *)
Module CFileReader.

Class Decoders (Value : Type) := {
  read_index_block :
    list byte → BlockPointerPB.t → option (list (IndexEntry Value) * IndexBlockTrailerPB.t);
  read_length : list byte → option Z;
  length_width : nat;
}.

Section Reader.
Context `{CommonProto} {Value : Type} `{Format Value} `{Decoders Value}.

(** A reader in state READY: the file and its footer. *)
Record t := mk { file : list byte; footer : CFileFooterPB.t }.

Definition ends_with (f suffix : list byte) : bool :=
  bool_decide (drop (length f - length suffix)%nat f = suffix).

(** Modelled from the spec: [open] of the missing reader (OPENING, sections
    4.1 and 4.8).  The file ends with the footer, the length of the footer
    and the marker; anything else is CorruptData. *)
Definition open (f : list byte) : Result t :=
  if negb (ends_with f magic) then Err CorruptData
  else
    let body := take (length f - length magic)%nat f in
    if decide (length body < length_width)%nat then Err CorruptData
    else
      let before_length := take (length body - length_width)%nat body in
      len ← or_fail CorruptData (read_length (drop (length body - length_width)%nat body));
      if (len <? 0) || (Z.of_nat (length before_length) <? len) then Err CorruptData
      else
        let footer_bytes := drop (length before_length - Z.to_nat len)%nat before_length in
        footer ← or_fail CorruptData (CFileFooterPB.ParseFromString footer_bytes);
        Ok (mk f footer).

Definition key_le (target : Value) (k : Key Value) : bool :=
  match k with
  | First v => value_le v target
  | Ordinal _ => false
  end.

Definition key_lt (k k' : Key Value) : bool :=
  match k, k' with
  | First v, First v' => negb (value_le v' v)
  | _, _ => false
  end.

(** The entry with the greatest key that is not above the target, the
    leftmost one when several entries have that key; the first entry when
    every key is above the target. *)
Definition find_entry (target : Value) (entries : list (IndexEntry Value))
  : option (IndexEntry Value) :=
  match entries with
  | [] => None
  | e :: rest =>
      Some (foldl (λ found e', if key_le target e'.1 && key_lt found.1 e'.1
                               then e' else found)
                  e rest)
  end.

(** Modelled from the spec: the lookup by value of the missing B-tree
    reader (section 4.4), from the root down to a leaf.  A trailer that does
    not fit its block is CorruptData; so is a descent that does not end
    within [fuel] levels. *)
Fixpoint lookup (fuel : nat) (f : list byte) (ptr : BlockPointerPB.t) (target : Value)
  : Result BlockPointerPB.t :=
  match fuel with
  | O => Err CorruptData
  | S fuel' =>
      '(entries, trailer) ← or_fail CorruptData (read_index_block f ptr);
      if negb (IndexBlockTrailerPB.num_entries trailer =? Z.of_nat (length entries))
      then Err CorruptData
      else
        '(_, child) ← or_fail CorruptData (find_entry target entries);
        match IndexBlockTrailerPB.type trailer with
        | IndexBlockTrailerPB.LEAF => Ok child
        | IndexBlockTrailerPB.INTERNAL => lookup fuel' f child target
        | IndexBlockTrailerPB.UNKNOWN => Err CorruptData
        end
  end.

(** Modelled from the spec: [seekToValue(v)] of the missing reader (READY,
    section 4.8), through the value index if the footer has one, else
    UnsupportedOperation.  The cursor is the pointer to the data block that
    the index gives for [v]. *)
Definition seekToValue (r : t) (v : Value) : Result BlockPointerPB.t :=
  match CFileFooterPB.validx_info_ (footer r) with
  | None => Err UnsupportedOperation
  | Some info => lookup (length (file r)) (file r) (BTreeInfoPB.root_block info) v
  end.

End Reader.
End CFileReader.

End spec.

(** An instance of the writer's and the reader's parameters, for the
    examples: the values are integers, a block is written as the varints of
    its entries, nothing is compressed, and encoding 5 is the dictionary
    encoding. *)
Module example.
Import spec.

Definition write_key (k : Key Z) : list byte :=
  match k with
  | Ordinal i => x00 :: WriteVarint64 i
  | First v => x01 :: WriteVarint64 v
  end.

Definition write_entry (e : IndexEntry Z) : list byte :=
  write_key e.1 ++ WriteBytesField 1 (BlockPointerPB.SerializeToString e.2).

(** An index block ends with its trailer and the length of the trailer. *)
Definition write_block (b : Block Z) : list byte :=
  match b with
  | DataBlock first values =>
      WriteVarint64 first ++ WriteVarint64 (Z.of_nat (length values))
      ++ concat (WriteVarint64 <$> values)
  | DictionaryBlock table =>
      WriteVarint64 (Z.of_nat (length table)) ++ concat (WriteVarint64 <$> table)
  | BloomBlock header values =>
      BloomBlockHeaderPB.SerializeToString header ++ concat (WriteVarint64 <$> values)
  | IndexBlock entries trailer =>
      let tb := IndexBlockTrailerPB.SerializeToString trailer in
      concat (write_entry <$> entries) ++ tb ++ [byte_of (Z.of_nat (length tb))]
  end.

#[global] Instance format : Format Z := {|
  value_le := Z.leb;
  dictionary_based n := n =? 5;
  block_bytes _ := write_block;
  header_bytes := CFileHeaderPB.SerializeToString;
  footer_bytes := CFileFooterPB.SerializeToString;
  length_bytes := WriteLittleEndian 4;
  magic := [x63; x66; x69; x6c];
|}.

Fixpoint read_entries (fuel : nat) (bs : list byte) : option (list (IndexEntry Z)) :=
  match fuel, bs with
  | _, [] => Some []
  | S fuel', kind :: rest =>
      '(k, rest) ← ReadVarint64 rest;
      '(tag, rest) ← ReadVarint32 rest;
      '(len, rest) ← ReadVarint32 rest;
      '(payload, rest) ← ReadBytes len rest;
      ptr ← BlockPointerPB.ParseFromString payload;
      entries ← read_entries fuel' rest;
      Some ((if decide (kind = x00) then Ordinal (int64_of_varint k)
             else First (int64_of_varint k), ptr) :: entries)
  | O, _ => None
  end.

Definition block_at (f : list byte) (ptr : BlockPointerPB.t) : option (list byte) :=
  let offset := BlockPointerPB.offset ptr in
  let size := BlockPointerPB.size ptr in
  if (offset <? 0) || (size <? 0) || (Z.of_nat (length f) <? offset + size) then None
  else Some (take (Z.to_nat size) (drop (Z.to_nat offset) f)).

Definition read_index (f : list byte) (ptr : BlockPointerPB.t)
  : option (list (IndexEntry Z) * IndexBlockTrailerPB.t) :=
  block ← block_at f ptr;
  tlen ← byte_val <$> last block;
  let body := take (length block - 1)%nat block in
  if Z.of_nat (length body) <? tlen then None
  else
    trailer ← IndexBlockTrailerPB.ParseFromString
                (drop (length body - Z.to_nat tlen)%nat body);
    entries ← read_entries (length body) (take (length body - Z.to_nat tlen)%nat body);
    Some (entries, trailer).

#[global] Instance decoders : CFileReader.Decoders Z := {|
  CFileReader.read_index_block := read_index;
  CFileReader.read_length bs := fst <$> ReadLittleEndian 4 bs;
  CFileReader.length_width := 4;
|}.

Definition header : CFileHeaderPB.t := CFileHeaderPB.mk (Some 1) (Some 0) [].

(** Plain encoding, no value index, blocks of two values. *)
Definition plain : Options := {|
  opt_data_type := 5; opt_encoding := 1; opt_compression := 1;
  opt_is_type_nullable := false; opt_value_index := false;
  opt_block_capacity := 2; opt_branching := 2; opt_num_hash_functions := 3;
|}.

(** The same with a value index; the same with the dictionary encoding. *)
Definition sorted : Options := {|
  opt_data_type := 5; opt_encoding := 1; opt_compression := 1;
  opt_is_type_nullable := false; opt_value_index := true;
  opt_block_capacity := 2; opt_branching := 2; opt_num_hash_functions := 3;
|}.

Definition dictionary : Options := {|
  opt_data_type := 5; opt_encoding := 5; opt_compression := 1;
  opt_is_type_nullable := false; opt_value_index := false;
  opt_block_capacity := 2; opt_branching := 2; opt_num_hash_functions := 3;
|}.

(** What a session leaves: the bytes of the file. *)
Definition written (o : Options) (batches : list (list Z)) : option (list byte) :=
  (λ r, CFileWriter.file r.1) <$> succeeded (CFileWriter.session o header batches).

End example.

(** The data of the examples. *)
Module example_data.
Import spec.

(** A footer with the three required fields only, and one that also has a
    position index rooted at (16, 32) and is_type_nullable. *)
Definition bare_footer : list byte := [x08; x05; x10; x01; x18; x00].
Definition indexed_footer : list byte :=
  [x08; x05; x10; x01; x18; xe8; x07; x22; x06; x0a; x04; x08; x10; x10; x20; x40; x01].

Definition bare_footer_pb : CFileFooterPB.t :=
  Eval vm_compute in
    default CFileFooterPB.Clear (@CFileFooterPB.ParseFromString example_common bare_footer).
Definition indexed_footer_pb : CFileFooterPB.t :=
  Eval vm_compute in
    default CFileFooterPB.Clear (@CFileFooterPB.ParseFromString example_common indexed_footer).

(** Five ascending values in blocks of two, without a value index: the
    file, and the reader that [open] makes of it. *)
Definition plain_file : list byte :=
  Eval vm_compute in default [] (example.written example.plain [[10; 20; 30]; [40; 50]]).

Definition plain_reader : CFileReader.t :=
  Eval vm_compute in
    match @CFileReader.open example_common Z example.format example.decoders plain_file with
    | Ok r => r
    | Err _ => CFileReader.mk [] CFileFooterPB.Clear
    end.

(** The same values with a value index. *)
Definition sorted_file : list byte :=
  Eval vm_compute in default [] (example.written example.sorted [[10; 20; 30]; [40; 50]]).

Definition sorted_reader : CFileReader.t :=
  Eval vm_compute in
    match @CFileReader.open example_common Z example.format example.decoders sorted_file with
    | Ok r => r
    | Err _ => CFileReader.mk [] CFileFooterPB.Clear
    end.

(** Five values, three of them distinct, with the dictionary encoding: the
    writer and the footer that the session leaves. *)
Definition dictionary_written : CFileWriter.t (Value := Z) * CFileFooterPB.t :=
  Eval vm_compute in
    match CFileWriter.session example.dictionary example.header [[10; 20; 10]; [20; 50]] with
    | Ok r => r
    | Err _ => (CFileWriter.create example.dictionary example.header, CFileFooterPB.Clear)
    end.

(** The first scenario of the specification: a thousand ascending values,
    plain encoding, a hundred values in a block. *)
Definition thousand : Options := {|
  opt_data_type := 5; opt_encoding := 1; opt_compression := 1;
  opt_is_type_nullable := false; opt_value_index := false;
  opt_block_capacity := 100; opt_branching := 16; opt_num_hash_functions := 3;
|}.

(** A catalog with a RUNNING table and its RUNNING tablet, and a removed
    table and its deleted tablet. *)
Definition peer : RaftPeerPB.t := RaftPeerPB.mk "u1" 0 (HostPortPB.mk "h" 7050).

Definition catalog : SysCatalogTable := {|
  table_rows :=
    [("t1", SysTablesEntryPB.mk "orders" 2); ("t2", SysTablesEntryPB.mk "old" 4)];
  tables_scan := OK;
  tablet_rows :=
    [("t1", "a", SysTabletsEntryPB.mk 2
                   (Some (ConsensusStatePB.mk (RaftConfigPB.mk [peer]) (Some "u1"))));
     ("t2", "b", SysTabletsEntryPB.mk 4 None)];
  tablets_scan := OK;
|}.

End example_data.

(** ** The block pointers of a written file *)
Module block_pointers.
Import spec.

(** Modelled from the spec: the invariants of a block pointer into a file
    (section 3), which no code among the sources checks: the offset is not
    negative, the size is positive, and the block ends within the file. *)
Definition points_into (ptr : BlockPointerPB.t) (f : list byte) : Prop :=
  0 ≤ BlockPointerPB.offset ptr
  ∧ 0 < BlockPointerPB.size ptr
  ∧ BlockPointerPB.offset ptr + BlockPointerPB.size ptr ≤ Z.of_nat (length f).

(** Modelled from the spec: a block that has the record that sections 4.4
    and 4.5 give it, the trailer of an index block and the header of a bloom
    block with their required fields; the encoders, which are missing, are
    asked for at least one byte for such a block. *)
Definition complete {Value : Type} (b : Block Value) : Prop :=
  match b with
  | DataBlock _ _ | DictionaryBlock _ => True
  | BloomBlock header _ => BloomBlockHeaderPB.IsInitialized header = true
  | IndexBlock _ trailer => IndexBlockTrailerPB.IsInitialized trailer = true
  end.

Section Recorded.
Context {Value : Type}.

(** Modelled from the spec: the block pointers that a finished writer of
    the missing CFile writer and its footer hold: those of the data blocks,
    the roots of the position index and of the value index, and that of the
    dictionary block. *)
Definition recorded (w : CFileWriter.t (Value := Value)) (footer : CFileFooterPB.t)
  : list BlockPointerPB.t :=
  (CFileWriter.pointer <$> CFileWriter.flushed w)
  ++ option_list (CFileFooterPB.posidx_info_ footer ≫= BTreeInfoPB.root_block_)
  ++ option_list (CFileFooterPB.validx_info_ footer ≫= BTreeInfoPB.root_block_)
  ++ option_list (CFileFooterPB.dict_block_ptr_ footer).

(** What every step of a write session keeps: the pointers of the data
    blocks that the writer has flushed point into its file. *)
Definition flushed_in_file (w : CFileWriter.t (Value := Value)) : Prop :=
  Forall (λ b, points_into (CFileWriter.pointer b) (CFileWriter.file w))
         (CFileWriter.flushed w).

End Recorded.

End block_pointers.

(** ** The values that the declared types of cfile.proto hold

    An [int32] or [int64] field holds a signed integer of that width, an
    enumeration field one of the declared numbers, and the payload of a
    string, bytes or embedded message field is shorter than 2^31 bytes. *)
Definition int32 (v : Z) : Prop := - 2 ^ 31 ≤ v < 2 ^ 31.
Definition int64 (v : Z) : Prop := - 2 ^ 63 ≤ v < 2 ^ 63.
Definition short (payload : list byte) : Prop := Z.of_nat (length payload) < 2 ^ 31.

Definition FileMetadataPairPB_ranges (m : FileMetadataPairPB.t) : Prop :=
  from_option short True (FileMetadataPairPB.key_ m)
  ∧ from_option short True (FileMetadataPairPB.value_ m)
  ∧ short (FileMetadataPairPB.SerializeToString m).

Definition CFileHeaderPB_ranges (m : CFileHeaderPB.t) : Prop :=
  from_option int32 True (CFileHeaderPB.major_version_ m)
  ∧ from_option int32 True (CFileHeaderPB.minor_version_ m)
  ∧ Forall FileMetadataPairPB_ranges (CFileHeaderPB.metadata_ m).

Definition BlockPointerPB_ranges (m : BlockPointerPB.t) : Prop :=
  from_option int64 True (BlockPointerPB.offset_ m)
  ∧ from_option int32 True (BlockPointerPB.size_ m).

Definition BTreeInfoPB_ranges (m : BTreeInfoPB.t) : Prop :=
  from_option BlockPointerPB_ranges True (BTreeInfoPB.root_block_ m).

Definition IndexBlockTrailerPB_ranges (m : IndexBlockTrailerPB.t) : Prop :=
  from_option int32 True (IndexBlockTrailerPB.num_entries_ m).

Definition BloomBlockHeaderPB_ranges (m : BloomBlockHeaderPB.t) : Prop :=
  from_option int32 True (BloomBlockHeaderPB.num_hash_functions_ m).

Definition enum (valid : Z → bool) (v : Z) : Prop := int32 v ∧ valid v = true.

Definition CFileFooterPB_ranges `{CommonProto} (m : CFileFooterPB.t) : Prop :=
  from_option (enum DataType_IsValid) True (CFileFooterPB.data_type_ m)
  ∧ from_option (enum EncodingType_IsValid) True (CFileFooterPB.encoding_ m)
  ∧ from_option int64 True (CFileFooterPB.num_values_ m)
  ∧ from_option BTreeInfoPB_ranges True (CFileFooterPB.posidx_info_ m)
  ∧ from_option BTreeInfoPB_ranges True (CFileFooterPB.validx_info_ m)
  ∧ from_option (enum CompressionType_IsValid) True (CFileFooterPB.compression_ m)
  ∧ Forall FileMetadataPairPB_ranges (CFileFooterPB.metadata_ m)
  ∧ from_option BlockPointerPB_ranges True (CFileFooterPB.dict_block_ptr_ m).

(** ** JSON documents

    A JSON value, as far as the dump writes them, and the calls that write
    it: a string is one call, an array and an object are bracketed by their
    Start and End calls, and a member of an object is the call for its key
    followed by the calls for its value. *)
Module json.

#[warnings="-register-all"] Inductive Json :=
| JString (s : string)
| JArray (items : list Json)
| JObject (members : list (string * Json)).

Fixpoint render (j : Json) : JsonWriter.t :=
  match j with
  | JString s => [JsonWriter.CString s]
  | JArray items =>
      JsonWriter.CStartArray :: concat (render <$> items) ++ [JsonWriter.CEndArray]
  | JObject members =>
      JsonWriter.CStartObject
      :: concat ((λ member, JsonWriter.CString member.1 :: render member.2) <$> members)
      ++ [JsonWriter.CEndObject]
  end.

Section Documents.
Context `{MasterProto}.

(** The documents of the dump, from the catalog rows. *)
Definition table_json (row : string * SysTablesEntryPB.t) : Json :=
  JObject [("table_id", JString row.1);
           ("table_name", JString (SysTablesEntryPB.name row.2));
           ("state", JString (SysTablesEntryPB_State_Name (SysTablesEntryPB.state row.2)))].

Definition peer_json (peer : RaftPeerPB.t) : Json :=
  JObject [("type", JString (RaftPeerPB_MemberType_Name (RaftPeerPB.member_type peer)));
           ("server_uuid", JString (RaftPeerPB.permanent_uuid peer));
           ("addr", JString (Substitute_host_port
                               (HostPortPB.host (RaftPeerPB.last_known_addr peer))
                               (HostPortPB.port (RaftPeerPB.last_known_addr peer))))].

Definition tablet_json (row : string * string * SysTabletsEntryPB.t) : Json :=
  JObject
    ([("table_id", JString row.1.1);
      ("tablet_id", JString row.1.2);
      ("state", JString (SysTabletsEntryPB_State_Name (SysTabletsEntryPB.state row.2)))]
     ++ match SysTabletsEntryPB.committed_consensus_state_ row.2 with
        | Some cs =>
            ("replicas",
             JArray (peer_json <$> RaftConfigPB.peers (ConsensusStatePB.config cs)))
            :: match ConsensusStatePB.leader_uuid_ cs with
               | Some leader => [("leader", JString leader)]
               | None => []
               end
        | None => []
        end).

Definition entities_json (cat : SysCatalogTable) : Json :=
  JObject
    [("tables",
      JArray (table_json <$> filter (λ row, running_table row = true) (table_rows cat)));
     ("tablets",
      JArray (tablet_json <$> filter (λ row, running_tablet row = true) (tablet_rows cat)))].

Definition error_json (text : string) : Json := JObject [("error", JString text)].

End Documents.
End json.

(** ** kudu/master/master-path-handlers.cc: the page of the tables *)
Module tables_page.

(** [std::map<string, string>]: the entries in the order of their keys, which
    is the order of [std::string], byte by byte; [set] is [m[key] = value]. *)
Module StringMap.

Definition t : Type := list (string * string).

Fixpoint set (key value : string) (m : t) : t :=
  match m with
  | [] => [(key, value)]
  | (key', value') :: m' =>
      match String.compare key key' with
      | Lt => (key, value) :: m
      | Eq => (key, value) :: m'
      | Gt => (key', value') :: set key value m'
      end
  end.

Definition lt (a b : string * string) : Prop := String.compare a.1 b.1 = Lt.

End StringMap.

(** kudu/server/webui_util.h, kudu/util/url-coding.h, kudu/util/string_case.h,
    and kudu/gutil/strings/substitute.h are not among the sources: the
    functions of theirs that the page calls are parameters. *)
Class WebUi := {
  EscapeForHtmlToString : string → string;
  Capitalize : string → string;
  Substitute : string → list string → string;
}.

(** What the page reads of a [TableInfo]: [table->id()] and, under the
    metadata lock, [l.data().is_running()], [l.data().name()],
    [l.data().pb.state()] and [l.data().pb.state_msg()]. *)
Record TableInfo := {
  id : string;
  is_running : bool;
  name : string;
  state : Z;
  state_msg : string;
}.

(** What the page asks of the master: the status of the leader lock and the
    tables that [GetAllTables] returns. *)
Record Master := {
  first_failed_status : Status;
  GetAllTables : list TableInfo;
}.

Definition newline : string := String (Ascii.ascii_of_nat 10) EmptyString.
Definition quote : string := String (Ascii.ascii_of_nat 34) EmptyString.

Section HandleCatalogManager.
Context `{MasterProto} `{WebUi}.

(** The body of the first loop (lines 106-113), for a table that is
    running. *)
Definition table_row (table : TableInfo) : string :=
  let state := SysTablesEntryPB_State_Name (state table) in
  let state := Capitalize state in
  Substitute
    ("<tr><th>$0</th><td><a href=" +:+ quote +:+ "/table?id=$1" +:+ quote
     +:+ ">$1</a></td><td>$2 $3</td></tr>" +:+ newline)
    [EscapeForHtmlToString (name table);
     EscapeForHtmlToString (id table);
     state;
     EscapeForHtmlToString (state_msg table)].

(** The first loop (lines 101-114). *)
Definition ordered_tables (tables : list TableInfo) : StringMap.t :=
  foldl (λ m table,
           if negb (is_running table) then m
           else StringMap.set (name table) (table_row table) m)
        [] tables.

(** MasterPathHandlers::HandleCatalogManager (lines 84-119): what it puts on
    [output]. *)
Definition HandleCatalogManager (master : Master) : string :=
  if negb (ok (first_failed_status master)) then
    "Master is not ready: " +:+ ToString (first_failed_status master)
  else
    let output := "<h1>Tables</h1>" +:+ newline in
    let output := output +:+ "<table class='table table-striped'>" +:+ newline in
    let output :=
      output +:+ "  <tr><th>Table Name</th><th>Table Id</th><th>State</th></tr>"
      +:+ newline in
    let output :=
      foldl (λ output table, output +:+ table.2) output
            (ordered_tables (GetAllTables master)) in
    output +:+ "</table>" +:+ newline.

(** The table that the page shows under a name: the last of the running
    tables that carry it. *)
Definition shown (tables : list TableInfo) (key : string) : option TableInfo :=
  last (filter (λ table, is_running table = true ∧ name table = key) tables).

End HandleCatalogManager.

(** CompareByRole (lines 123-126): the order in which [std::sort] puts the
    replicas of a tablet; a role is its number. *)
Definition CompareByRole (a b : string * Z) : bool := a.2 <? b.2.

End tables_page.

(** The data of the examples of the round trips and of the pages. *)
Module example_messages.

Definition pointer : BlockPointerPB.t := BlockPointerPB.mk (Some 16) (Some 32).
Definition tree : BTreeInfoPB.t := BTreeInfoPB.mk (Some pointer).
Definition trailer : IndexBlockTrailerPB.t :=
  IndexBlockTrailerPB.mk (Some 7) (Some IndexBlockTrailerPB.INTERNAL).
Definition bloom : BloomBlockHeaderPB.t := BloomBlockHeaderPB.mk (Some 3).
Definition pair : FileMetadataPairPB.t := FileMetadataPairPB.mk (Some [x61]) (Some [x62; x63]).
Definition header : CFileHeaderPB.t :=
  CFileHeaderPB.mk (Some 1) (Some 0) [pair; FileMetadataPairPB.mk (Some []) (Some [])].

(** Five ascending values in blocks of two, with a value index: the writer
    and the footer that the session leaves. *)
Definition sorted_written : spec.CFileWriter.t (Value := Z) * CFileFooterPB.t :=
  Eval vm_compute in
    match spec.CFileWriter.session example.sorted example.header [[10; 20; 30]; [40; 50]] with
    | spec.Ok r => r
    | spec.Err _ =>
        (spec.CFileWriter.create example.sorted example.header, CFileFooterPB.Clear)
    end.

(** The catalog of the examples when the scan of its tables fails. *)
Definition failed_catalog : SysCatalogTable := {|
  table_rows := table_rows example_data.catalog;
  tables_scan := NotOK "Timed out";
  tablet_rows := tablet_rows example_data.catalog;
  tablets_scan := OK;
|}.

End example_messages.

Module example_pages.
Import tables_page.

(** [Substitute] for the examples: [$n] is the argument of that position. *)
Fixpoint substitute (args : list string) (format : string) : string :=
  match format with
  | EmptyString => EmptyString
  | String c rest =>
      match rest with
      | String d rest' =>
          if decide (c = Ascii.ascii_of_nat 36) then
            match Ascii.is_nat d with
            | Some n => default EmptyString (args !! n) +:+ substitute args rest'
            | None => String c (substitute args rest)
            end
          else String c (substitute args rest)
      | EmptyString => String c EmptyString
      end
  end.

(** An instance of the helpers of the web UI, for the examples, whose texts
    hold no character to escape and whose state names are left as they
    are. *)
Definition example_webui : WebUi := {|
  EscapeForHtmlToString s := s;
  Capitalize s := s;
  Substitute format args := substitute args format;
|}.

Definition orders : TableInfo :=
  {| id := "t1"; is_running := true; name := "orders"; state := 2; state_msg := "" |}.
Definition clients : TableInfo :=
  {| id := "t3"; is_running := true; name := "clients"; state := 2; state_msg := "" |}.
Definition dropped : TableInfo :=
  {| id := "t2"; is_running := false; name := "old"; state := 4; state_msg := "dropped" |}.

(** A master that holds the leader lock, the same with its tables in another
    order, and one that does not hold the lock. *)
Definition ready : Master :=
  {| first_failed_status := OK; GetAllTables := [orders; dropped; clients] |}.
Definition reordered : Master :=
  {| first_failed_status := OK; GetAllTables := [clients; orders; dropped] |}.
Definition not_ready : Master :=
  {| first_failed_status := NotOK "Not the leader"; GetAllTables := [] |}.

End example_pages.

(** * Lemmas *)

(** ** The wire format *)

Lemma ReadVarint_S n shift b bs :
  ReadVarint (S n) shift (b :: bs) =
  let v := Z.shiftl (Z.land (byte_val b) 127) shift in
  if Z.testbit (byte_val b) 7
  then '(hi, rest') ← ReadVarint n (shift + 7) bs; Some (Z.lor v hi, rest')
  else Some (v, bs).
Proof. reflexivity. Qed.

Lemma ReadFields_S fuel group b bs :
  ReadFields (S fuel) group (b :: bs) =
  '(tag, rest) ← ReadVarint32 (b :: bs);
  let number := Z.shiftr tag 3 in
  let wire_type := Z.land tag 7 in
  if tag =? 0 then None
  else if wire_type =? 4 then
    if decide (group = Some number) then Some ([], rest) else None
  else
    '(v, rest') ←
      (if wire_type =? 0 then
         '(v, r) ← ReadVarint64 rest; Some (VARINT v, r)
       else if wire_type =? 1 then
         '(v, r) ← ReadLittleEndian 8 rest; Some (FIXED64 v, r)
       else if wire_type =? 2 then
         '(len, r) ← ReadVarint32 rest;
         '(payload, r') ← ReadBytes len r; Some (LENGTH_DELIMITED payload, r')
       else if wire_type =? 3 then
         '(_, r) ← ReadFields fuel (Some number) rest; Some (GROUP, r)
       else if wire_type =? 5 then
         '(v, r) ← ReadLittleEndian 4 rest; Some (FIXED32 v, r)
       else None);
    '(fs, rest'') ← ReadFields fuel group rest';
    Some ((number, v) :: fs, rest'').
Proof. reflexivity. Qed.

Lemma ReadVarint_length n shift bs v rest :
  ReadVarint n shift bs = Some (v, rest) → (length rest < length bs)%nat.
Proof.
  revert shift bs v rest. induction n as [|n IH]; intros shift bs v rest.
  - discriminate.
  - destruct bs as [|b bs']; [discriminate|]. rewrite ReadVarint_S. cbv zeta.
    destruct (Z.testbit (byte_val b) 7).
    + destruct (ReadVarint n (shift + 7) bs') as [[hi r]|] eqn:E; [|discriminate].
      intros [= <- <-]. apply IH in E. simpl. lia.
    + intros [= <- <-]. simpl. lia.
Qed.

Lemma ReadVarint64_length bs v rest :
  ReadVarint64 bs = Some (v, rest) → (length rest < length bs)%nat.
Proof.
  unfold ReadVarint64.
  destruct (ReadVarint 10 0 bs) as [[w r]|] eqn:E; [|discriminate].
  intros [= <- <-]. eapply ReadVarint_length, E.
Qed.

Lemma ReadVarint32_length bs v rest :
  ReadVarint32 bs = Some (v, rest) → (length rest < length bs)%nat.
Proof.
  unfold ReadVarint32.
  destruct (ReadVarint64 bs) as [[w r]|] eqn:E; [|discriminate].
  intros [= <- <-]. eapply ReadVarint64_length, E.
Qed.

Lemma ReadLittleEndian_length n bs v rest :
  ReadLittleEndian n bs = Some (v, rest) → (length rest ≤ length bs)%nat.
Proof.
  revert bs v rest. induction n as [|n IH]; intros bs v rest; simpl.
  - intros [= <- <-]. lia.
  - destruct bs as [|b bs']; [discriminate|].
    destruct (ReadLittleEndian n bs') as [[w r]|] eqn:E; [|discriminate].
    intros [= <- <-]. apply IH in E. simpl. lia.
Qed.

Lemma ReadBytes_length len bs payload rest :
  ReadBytes len bs = Some (payload, rest) → (length rest ≤ length bs)%nat.
Proof.
  unfold ReadBytes. destruct (_ || _); [discriminate|].
  intros [= <- <-]. rewrite length_drop. lia.
Qed.

(** A varint is an unsigned 64-bit value. *)
Lemma ReadVarint64_range bs v rest :
  ReadVarint64 bs = Some (v, rest) → 0 ≤ v < 2 ^ 64.
Proof.
  unfold ReadVarint64.
  destruct (ReadVarint 10 0 bs) as [[w r]|]; [|discriminate].
  intros [= <- <-]. apply Z.mod_pos_bound. lia.
Qed.

Lemma int64_of_varint_range v : - 2 ^ 63 ≤ int64_of_varint v < 2 ^ 63.
Proof.
  unfold int64_of_varint.
  pose proof (Z.mod_pos_bound v (2 ^ 64) ltac:(lia)).
  cbv zeta. destruct (Z.ltb_spec (v mod 2 ^ 64) (2 ^ 63)); lia.
Qed.

Lemma int32_of_varint_range v : - 2 ^ 31 ≤ int32_of_varint v < 2 ^ 31.
Proof.
  unfold int32_of_varint.
  pose proof (Z.mod_pos_bound v (2 ^ 32) ltac:(lia)).
  cbv zeta. destruct (Z.ltb_spec (v mod 2 ^ 32) (2 ^ 31)); lia.
Qed.

(** The value of one field, by wire type, as [ReadFields] reads it. *)
Lemma read_value_length fuel number wire_type r0 v r1 :
  (∀ group bs fs rest,
     ReadFields fuel group bs = Some (fs, rest) → (length rest ≤ length bs)%nat) →
  (if wire_type =? 0 then
     '(v, r) ← ReadVarint64 r0; Some (VARINT v, r)
   else if wire_type =? 1 then
     '(v, r) ← ReadLittleEndian 8 r0; Some (FIXED64 v, r)
   else if wire_type =? 2 then
     '(len, r) ← ReadVarint32 r0;
     '(payload, r') ← ReadBytes len r; Some (LENGTH_DELIMITED payload, r')
   else if wire_type =? 3 then
     '(_, r) ← ReadFields fuel (Some number) r0; Some (GROUP, r)
   else if wire_type =? 5 then
     '(v, r) ← ReadLittleEndian 4 r0; Some (FIXED32 v, r)
   else None) = Some (v, r1) →
  (length r1 ≤ length r0)%nat.
Proof.
  intros IH Eval.
  destruct (wire_type =? 0).
  { destruct (ReadVarint64 r0) as [[w r]|] eqn:E; [|discriminate].
    injection Eval as <- <-. apply ReadVarint64_length in E. lia. }
  destruct (wire_type =? 1).
  { destruct (ReadLittleEndian 8 r0) as [[w r]|] eqn:E; [|discriminate].
    injection Eval as <- <-. eapply ReadLittleEndian_length, E. }
  destruct (wire_type =? 2).
  { destruct (ReadVarint32 r0) as [[len r]|] eqn:E; [|discriminate].
    simpl in Eval.
    destruct (ReadBytes len r) as [[p r']|] eqn:E'; [|discriminate].
    injection Eval as <- <-.
    apply ReadVarint32_length in E. apply ReadBytes_length in E'. lia. }
  destruct (wire_type =? 3).
  { destruct (ReadFields fuel _ r0) as [[gfs r]|] eqn:E; [|discriminate].
    injection Eval as <- <-. eapply IH, E. }
  destruct (wire_type =? 5); [|discriminate].
  destruct (ReadLittleEndian 4 r0) as [[w r]|] eqn:E; [|discriminate].
  injection Eval as <- <-. eapply ReadLittleEndian_length, E.
Qed.

(** What [ReadFields] leaves is never longer than what it was given. *)
Lemma ReadFields_length fuel group bs fs rest :
  ReadFields fuel group bs = Some (fs, rest) → (length rest ≤ length bs)%nat.
Proof.
  revert group bs fs rest.
  induction fuel as [|fuel IH]; intros group bs fs rest; [discriminate|].
  destruct bs as [|b bs'].
  { simpl. destruct group; [discriminate|]. intros [= <- <-]. simpl. lia. }
  rewrite ReadFields_S.
  destruct (ReadVarint32 (b :: bs')) as [[tag r0]|] eqn:Etag; [|discriminate].
  apply ReadVarint32_length in Etag. cbn [mbind option_bind]. cbv zeta.
  destruct (tag =? 0); [discriminate|].
  destruct (Z.land tag 7 =? 4).
  { case_decide; [|discriminate]. intros [= <- <-]. lia. }
  match goal with
  | |- context [mbind _ ?val] => destruct val as [[v r1]|] eqn:Eval; [|discriminate]
  end.
  apply read_value_length in Eval; [|exact IH].
  cbn [mbind option_bind].
  destruct (ReadFields fuel group r1) as [[fs' r2]|] eqn:E; [|discriminate].
  intros [= <- <-]. apply IH in E. lia.
Qed.

(** Fuel beyond the length of the input changes nothing: [ReadMessage]
    refuses an input only because it is malformed. *)
Lemma ReadFields_fuel fuel fuel' group bs :
  (length bs < fuel)%nat → (length bs < fuel')%nat →
  ReadFields fuel group bs = ReadFields fuel' group bs.
Proof.
  revert fuel' group bs.
  induction fuel as [|fuel IH]; intros fuel' group bs Hf Hf'; [lia|].
  destruct fuel' as [|fuel']; [lia|].
  destruct bs as [|b bs']; [reflexivity|].
  rewrite !ReadFields_S.
  destruct (ReadVarint32 (b :: bs')) as [[tag r0]|] eqn:Etag; [|reflexivity].
  apply ReadVarint32_length in Etag. cbn [mbind option_bind]. cbv zeta.
  destruct (tag =? 0); [reflexivity|].
  destruct (Z.land tag 7 =? 4); [reflexivity|].
  assert (ReadFields fuel (Some (Z.shiftr tag 3)) r0
          = ReadFields fuel' (Some (Z.shiftr tag 3)) r0) as ->.
  { apply IH; simpl in *; lia. }
  match goal with
  | |- mbind _ ?val = _ => destruct val as [[v r1]|] eqn:Eval; [|reflexivity]
  end.
  apply read_value_length in Eval; [|apply ReadFields_length].
  cbn [mbind option_bind].
  rewrite (IH fuel' group r1) by (simpl in *; lia). reflexivity.
Qed.

Lemma ReadMessage_fuel fuel bs :
  (length bs < fuel)%nat →
  ReadMessage bs = '(fs, _) ← ReadFields fuel None bs; Some fs.
Proof.
  intros Hf. unfold ReadMessage.
  rewrite (ReadFields_fuel (S (length bs)) fuel) by lia. reflexivity.
Qed.

(** What holds of the message before the merge and is kept by every field
    holds after it. *)
Lemma MergeFields_invariant {M : Type} (merge : M → Field → option M) (P : M → Prop) :
  (∀ m f m', merge m f = Some m' → P m → P m') →
  ∀ fs m m', MergeFields merge m fs = Some m' → P m → P m'.
Proof.
  intros Hstep fs. induction fs as [|f fs IH]; intros m m'; simpl.
  - intros [= <-]. auto.
  - destruct (merge m f) as [m1|] eqn:E; [|discriminate].
    cbn [mbind option_bind]. intros Hm Pm. eauto.
Qed.

(** A part of the message that only the fields numbered [n] touch is left
    alone by an input without such a field. *)
Lemma MergeFields_absent {M A : Type} (merge : M → Field → option M)
    (proj : M → A) (n : Z) :
  (∀ m f m', merge m f = Some m' → f.1 ≠ n → proj m' = proj m) →
  ∀ fs m m', MergeFields merge m fs = Some m' → n ∉ numbers fs → proj m' = proj m.
Proof.
  intros Hstep fs. induction fs as [|f fs IH]; intros m m'; simpl.
  - intros [= <-]. auto.
  - destruct (merge m f) as [m1|] eqn:E; [|discriminate].
    cbn [mbind option_bind]. intros Hm Hn.
    change (n ∉ f.1 :: numbers fs) in Hn. apply not_elem_of_cons in Hn.
    destruct Hn as [Hf Hn].
    rewrite (IH m1 m' Hm Hn). eapply Hstep; eauto.
Qed.

(** ** cfile.proto: block pointers, bloom headers, trailers *)

Lemma BlockPointerPB_MergeField_range m f m' :
  BlockPointerPB.MergeField m f = Some m' →
  (∀ v, BlockPointerPB.offset_ m = Some v → - 2 ^ 63 ≤ v < 2 ^ 63) ∧
  (∀ v, BlockPointerPB.size_ m = Some v → - 2 ^ 31 ≤ v < 2 ^ 31) →
  (∀ v, BlockPointerPB.offset_ m' = Some v → - 2 ^ 63 ≤ v < 2 ^ 63) ∧
  (∀ v, BlockPointerPB.size_ m' = Some v → - 2 ^ 31 ≤ v < 2 ^ 31).
Proof.
  destruct f as [n [v|v|p| |v]]; simpl; try (intros [= <-]; tauto).
  intros Hm [Ho Hs].
  destruct (n =? 1); [|destruct (n =? 2)]; injection Hm as <-; simpl; split; auto.
  - intros ? [= <-]. apply int64_of_varint_range.
  - intros ? [= <-]. apply int32_of_varint_range.
Qed.

(** A decoded block pointer carries its offset and its size, the offset a
    signed 64-bit integer and the size a signed 32-bit integer; the parser
    checks nothing else of them. *)
Lemma BlockPointerPB_decoded bs p :
  BlockPointerPB.ParseFromString bs = Some p →
  BlockPointerPB.has_offset p = true ∧ BlockPointerPB.has_size p = true ∧
  - 2 ^ 63 ≤ BlockPointerPB.offset p < 2 ^ 63 ∧
  - 2 ^ 31 ≤ BlockPointerPB.size p < 2 ^ 31.
Proof.
  unfold BlockPointerPB.ParseFromString, BlockPointerPB.MergePartialFromString.
  destruct (ReadMessage bs) as [fs|]; [|discriminate]. cbn [mbind option_bind].
  destruct (MergeFields _ _ fs) as [m|] eqn:E; [|discriminate]. cbn [mbind option_bind].
  destruct (BlockPointerPB.IsInitialized m) eqn:Hinit; [|discriminate].
  intros [= <-].
  apply andb_prop in Hinit as [Ho Hs].
  destruct (MergeFields_invariant _ _ BlockPointerPB_MergeField_range _ _ _ E)
    as [Hro Hrs]; [split; intros; discriminate|].
  unfold BlockPointerPB.has_offset, BlockPointerPB.has_size,
    BlockPointerPB.offset, BlockPointerPB.size in *.
  destruct (BlockPointerPB.offset_ m) as [off|]; [|discriminate].
  destruct (BlockPointerPB.size_ m) as [sz|]; [|discriminate].
  simpl. auto.
Qed.

(** The parser does not ask that a pointer points into a file: these
    thirteen bytes are decoded to a block pointer with offset -1 and
    size 0. *)
Lemma BlockPointerPB_negative_offset_zero_size :
  BlockPointerPB.ParseFromString
    [x08; xff; xff; xff; xff; xff; xff; xff; xff; xff; x01; x10; x00]
  = Some (BlockPointerPB.mk (Some (-1)) (Some 0))
  ∧ ¬ (0 ≤ BlockPointerPB.offset (BlockPointerPB.mk (Some (-1)) (Some 0)))
  ∧ ¬ (0 < BlockPointerPB.size (BlockPointerPB.mk (Some (-1)) (Some 0))).
Proof.
  split; [vm_compute; reflexivity|].
  unfold BlockPointerPB.offset, BlockPointerPB.size. simpl. lia.
Qed.

Lemma BloomBlockHeaderPB_MergeField_range m f m' :
  BloomBlockHeaderPB.MergeField m f = Some m' →
  (∀ v, BloomBlockHeaderPB.num_hash_functions_ m = Some v → - 2 ^ 31 ≤ v < 2 ^ 31) →
  (∀ v, BloomBlockHeaderPB.num_hash_functions_ m' = Some v → - 2 ^ 31 ≤ v < 2 ^ 31).
Proof.
  destruct f as [n [v|v|p| |v]]; simpl; try (intros [= <-]; tauto).
  intros Hm Hr. destruct (n =? 1); injection Hm as <-; simpl; auto.
  intros ? [= <-]. apply int32_of_varint_range.
Qed.

(** C8, as the code has it: a decoded bloom block header carries
    num_hash_functions, a signed 32-bit integer; nothing bounds it below. *)
Theorem BloomBlockHeaderPB_decoded bs h :
  BloomBlockHeaderPB.ParseFromString bs = Some h →
  BloomBlockHeaderPB.has_num_hash_functions h = true ∧
  - 2 ^ 31 ≤ BloomBlockHeaderPB.num_hash_functions h < 2 ^ 31.
Proof.
  unfold BloomBlockHeaderPB.ParseFromString, BloomBlockHeaderPB.MergePartialFromString.
  destruct (ReadMessage bs) as [fs|]; [|discriminate]. cbn [mbind option_bind].
  destruct (MergeFields _ _ fs) as [m|] eqn:E; [|discriminate]. cbn [mbind option_bind].
  destruct (BloomBlockHeaderPB.IsInitialized m) eqn:Hinit; [|discriminate].
  intros [= <-]. split; [exact Hinit|].
  pose proof (MergeFields_invariant _ _ BloomBlockHeaderPB_MergeField_range _ _ _ E) as Hr.
  unfold BloomBlockHeaderPB.IsInitialized, BloomBlockHeaderPB.has_num_hash_functions,
    BloomBlockHeaderPB.num_hash_functions in *.
  destruct (BloomBlockHeaderPB.num_hash_functions_ m); [|discriminate].
  simpl. apply Hr; [intros; discriminate|reflexivity].
Qed.

(** C8 at the two bytes of a header with three hash functions. *)
Lemma BloomBlockHeaderPB_decoded_witness :
  BloomBlockHeaderPB.has_num_hash_functions (BloomBlockHeaderPB.mk (Some 3)) = true ∧
  - 2 ^ 31 ≤ BloomBlockHeaderPB.num_hash_functions (BloomBlockHeaderPB.mk (Some 3)) < 2 ^ 31.
Proof.
  apply (BloomBlockHeaderPB_decoded [x08; x03]). vm_compute. reflexivity.
Defined.

(** C8, as the claim has it, fails: these bytes are a bloom block header
    with no hash function, and these with a negative number of them. *)
Lemma BloomBlockHeaderPB_zero_hash_functions :
  BloomBlockHeaderPB.ParseFromString [x08; x00] = Some (BloomBlockHeaderPB.mk (Some 0))
  ∧ ¬ (1 ≤ BloomBlockHeaderPB.num_hash_functions (BloomBlockHeaderPB.mk (Some 0)))
  ∧ BloomBlockHeaderPB.ParseFromString [x08; xff; xff; xff; xff; x0f]
    = Some (BloomBlockHeaderPB.mk (Some (-1))).
Proof.
  split; [vm_compute; reflexivity|]. split; [|vm_compute; reflexivity].
  unfold BloomBlockHeaderPB.num_hash_functions. simpl. lia.
Qed.

Lemma IndexBlockTrailerPB_MergeFields_no_type fs : ∀ m m',
  MergeFields IndexBlockTrailerPB.MergeField m fs = Some m' →
  IndexBlockTrailerPB.type_ m = None →
  (∀ v, (2, VARINT v) ∈ fs →
        IndexBlockTrailerPB.BlockType_IsValid (int32_of_varint v) = false) →
  IndexBlockTrailerPB.type_ m' = None.
Proof.
  induction fs as [|f fs IH]; intros m m'; simpl.
  - intros [= <-]. auto.
  - destruct (IndexBlockTrailerPB.MergeField m f) as [m1|] eqn:E; [|discriminate].
    cbn [mbind option_bind]. intros Hm Hnone Hfs.
    apply (IH m1 m' Hm); [|intros v Hv; apply Hfs, list_elem_of_further, Hv].
    destruct f as [n [v|v|p| |v]]; simpl in E; try (injection E as <-; exact Hnone).
    destruct (Z.eqb_spec n 1); [injection E as <-; exact Hnone|].
    destruct (Z.eqb_spec n 2) as [->|]; [|injection E as <-; exact Hnone].
    specialize (Hfs v (list_elem_of_here _ _)).
    unfold IndexBlockTrailerPB.BlockType_IsValid in Hfs.
    destruct (IndexBlockTrailerPB.BlockType_of_number (int32_of_varint v));
      [discriminate|]. injection E as <-. exact Hnone.
Qed.

(** C2, as the code has it: the type of a decoded index block trailer is
    there and is one of the three declared values UNKNOWN, LEAF and
    INTERNAL; each of the three is the type of some decoded trailer; and a
    trailer whose type fields all carry a number that is not declared does
    not decode. *)
Theorem IndexBlockTrailerPB_type_declared :
  (∀ bs t, IndexBlockTrailerPB.ParseFromString bs = Some t →
     IndexBlockTrailerPB.has_type t = true ∧
     (IndexBlockTrailerPB.type t = IndexBlockTrailerPB.UNKNOWN
      ∨ IndexBlockTrailerPB.type t = IndexBlockTrailerPB.LEAF
      ∨ IndexBlockTrailerPB.type t = IndexBlockTrailerPB.INTERNAL)) ∧
  (∀ ty, ∃ bs t, IndexBlockTrailerPB.ParseFromString bs = Some t
                 ∧ IndexBlockTrailerPB.type_ t = Some ty) ∧
  (∀ bs fs, ReadMessage bs = Some fs →
     (∀ v, (2, VARINT v) ∈ fs →
           IndexBlockTrailerPB.BlockType_IsValid (int32_of_varint v) = false) →
     IndexBlockTrailerPB.ParseFromString bs = None).
Proof.
  split; [|split].
  - intros bs t. unfold IndexBlockTrailerPB.ParseFromString.
    destruct (IndexBlockTrailerPB.MergePartialFromString _ bs) as [m|]; [|discriminate].
    cbn [mbind option_bind].
    destruct (IndexBlockTrailerPB.IsInitialized m) eqn:Hinit; [|discriminate].
    intros [= <-]. apply andb_prop in Hinit as [_ Hty]. split; [exact Hty|].
    destruct (IndexBlockTrailerPB.type m); auto.
  - intros [| |].
    + exists [x08; x00; x10; xe7; x07]. eexists. split; vm_compute; reflexivity.
    + exists [x08; x00; x10; x00]. eexists. split; vm_compute; reflexivity.
    + exists [x08; x00; x10; x01]. eexists. split; vm_compute; reflexivity.
  - intros bs fs Hfs Hinvalid.
    unfold IndexBlockTrailerPB.ParseFromString, IndexBlockTrailerPB.MergePartialFromString.
    rewrite Hfs. cbn [mbind option_bind].
    destruct (MergeFields _ _ fs) as [m|] eqn:E; [|reflexivity].
    cbn [mbind option_bind].
    apply IndexBlockTrailerPB_MergeFields_no_type in E; [|reflexivity|exact Hinvalid].
    unfold IndexBlockTrailerPB.IsInitialized, IndexBlockTrailerPB.has_type.
    rewrite E, andb_false_r. reflexivity.
Qed.

(** C2, as the claim has it, fails: these five bytes are a trailer of type
    UNKNOWN (999), which is neither LEAF nor INTERNAL. *)
Lemma IndexBlockTrailerPB_type_UNKNOWN :
  IndexBlockTrailerPB.ParseFromString [x08; x00; x10; xe7; x07]
  = Some (IndexBlockTrailerPB.mk (Some 0) (Some IndexBlockTrailerPB.UNKNOWN))
  ∧ IndexBlockTrailerPB.type
      (IndexBlockTrailerPB.mk (Some 0) (Some IndexBlockTrailerPB.UNKNOWN))
    ≠ IndexBlockTrailerPB.LEAF
  ∧ IndexBlockTrailerPB.type
      (IndexBlockTrailerPB.mk (Some 0) (Some IndexBlockTrailerPB.UNKNOWN))
    ≠ IndexBlockTrailerPB.INTERNAL.
Proof.
  split; [vm_compute; reflexivity|]. split; discriminate.
Qed.

(** ** cfile.proto: the footer *)

Section Footer.
Context `{CommonProto}.

(** The cases of [CFileFooterPB.MergeField]: by wire value, then by number. *)
Ltac footer_field f n :=
  destruct f as [n [?v|?v|?payload| |?v]]; unfold CFileFooterPB.MergeField;
  repeat match goal with
         | |- context [n =? ?k] => destruct (Z.eqb_spec n k); [subst n|]
         end;
  unfold CFileFooterPB.set_enum;
  repeat match goal with
         | |- context [if ?valid (int32_of_varint ?v) then _ else _] =>
             destruct (valid (int32_of_varint v))
         | |- context [mbind _ ?o] => destruct o; cbn [mbind option_bind]
         end.

Lemma CFileFooterPB_parsed bs f :
  CFileFooterPB.ParseFromString bs = Some f →
  ∃ fs, ReadMessage bs = Some fs
        ∧ MergeFields CFileFooterPB.MergeField CFileFooterPB.Clear fs = Some f
        ∧ CFileFooterPB.IsInitialized f = true.
Proof.
  unfold CFileFooterPB.ParseFromString, CFileFooterPB.MergePartialFromString.
  destruct (ReadMessage bs) as [fs|]; [|discriminate]. cbn [mbind option_bind].
  destruct (MergeFields _ _ fs) as [m|] eqn:E; [|discriminate]. cbn [mbind option_bind].
  destruct (CFileFooterPB.IsInitialized m) eqn:Hinit; [|discriminate].
  intros [= <-]. eauto.
Qed.

Lemma CFileFooterPB_MergeField_posidx_info m f m' :
  CFileFooterPB.MergeField m f = Some m' →
  CFileFooterPB.has_posidx_info m' = true ↔
  CFileFooterPB.has_posidx_info m = true ∨ ∃ payload, f = (4, LENGTH_DELIMITED payload).
Proof.
  footer_field f n; intros [= <-]; cbn;
    try (split; [tauto | intros [?|[? [=]]]; tauto || congruence]; fail).
  split; eauto.
Qed.

Lemma CFileFooterPB_MergeFields_posidx_info fs m m' :
  MergeFields CFileFooterPB.MergeField m fs = Some m' →
  CFileFooterPB.has_posidx_info m' = true ↔
  CFileFooterPB.has_posidx_info m = true
  ∨ ∃ payload, (4, LENGTH_DELIMITED payload) ∈ fs.
Proof.
  revert m. induction fs as [|f fs IH]; intros m; simpl.
  - intros [= <-]. split; [tauto|]. intros [?|[? Hin]]; [tauto|]. inversion Hin.
  - destruct (CFileFooterPB.MergeField m f) as [m1|] eqn:E; [|discriminate].
    cbn [mbind option_bind]. intros Hm. rewrite (IH _ Hm).
    rewrite (CFileFooterPB_MergeField_posidx_info _ _ _ E). split.
    + intros [[?|[p ->]]|[p Hin]]; [tauto| |]; right; exists p;
        [apply list_elem_of_here | apply list_elem_of_further, Hin].
    + intros [?|[p Hin]]; [tauto|].
      apply elem_of_cons in Hin as [<-|Hin]; eauto.
Qed.

(** C1, as the code has it: a decoded footer always carries data_type,
    encoding and num_values, the required fields; posidx_info is optional,
    and the decoded footer carries it exactly when the encoded footer has a
    length-delimited field 4. *)
Theorem CFileFooterPB_posidx_info_optional bs fs f :
  ReadMessage bs = Some fs →
  CFileFooterPB.ParseFromString bs = Some f →
  CFileFooterPB.has_data_type f = true ∧ CFileFooterPB.has_encoding f = true ∧
  CFileFooterPB.has_num_values f = true ∧
  (CFileFooterPB.has_posidx_info f = true ↔
   ∃ payload, (4, LENGTH_DELIMITED payload) ∈ fs).
Proof.
  intros Hfs Hf. apply CFileFooterPB_parsed in Hf as (fs' & Hfs' & Hm & Hinit).
  assert (fs' = fs) as -> by congruence.
  unfold CFileFooterPB.IsInitialized in Hinit.
  repeat (apply andb_prop in Hinit as [Hinit ?]).
  repeat split; auto.
  - intros Hp. apply (CFileFooterPB_MergeFields_posidx_info _ _ _ Hm) in Hp.
    destruct Hp as [Hp|Hp]; [discriminate|exact Hp].
  - intros Hp. apply (CFileFooterPB_MergeFields_posidx_info _ _ _ Hm). auto.
Qed.

(** C9: an index handle of a decoded footer, position or value, has its
    root block, and the root block its offset and its size. *)
Theorem CFileFooterPB_index_has_root bs f info :
  CFileFooterPB.ParseFromString bs = Some f →
  CFileFooterPB.posidx_info_ f = Some info ∨ CFileFooterPB.validx_info_ f = Some info →
  BTreeInfoPB.has_root_block info = true ∧
  BlockPointerPB.has_offset (BTreeInfoPB.root_block info) = true ∧
  BlockPointerPB.has_size (BTreeInfoPB.root_block info) = true.
Proof.
  intros Hf Hinfo. apply CFileFooterPB_parsed in Hf as (fs & _ & _ & Hinit).
  unfold CFileFooterPB.IsInitialized in Hinit.
  repeat (apply andb_prop in Hinit as [Hinit ?]).
  assert (BTreeInfoPB.IsInitialized info = true) as Hi.
  { destruct Hinfo as [E|E]; rewrite E in *; assumption. }
  unfold BTreeInfoPB.IsInitialized, BlockPointerPB.IsInitialized in Hi.
  apply andb_prop in Hi as [? Hi]. apply andb_prop in Hi as [? ?]. auto.
Qed.

Lemma CFileFooterPB_MergeField_compression m f m' :
  CFileFooterPB.MergeField m f = Some m' → f.1 ≠ 6 →
  CFileFooterPB.compression_ m' = CFileFooterPB.compression_ m.
Proof. footer_field f n; intros [= <-] Hn; cbn in *; congruence. Qed.

Lemma CFileFooterPB_MergeField_is_type_nullable m f m' :
  CFileFooterPB.MergeField m f = Some m' → f.1 ≠ 8 →
  CFileFooterPB.is_type_nullable_ m' = CFileFooterPB.is_type_nullable_ m.
Proof. footer_field f n; intros [= <-] Hn; cbn in *; congruence. Qed.

(** C6: a decoded footer whose encoding has no field 6 has no compression
    field, and its compression is NO_COMPRESSION; one whose encoding has no
    field 8 has no is_type_nullable field, and its is_type_nullable is
    false. *)
Theorem CFileFooterPB_defaults bs fs f :
  ReadMessage bs = Some fs →
  CFileFooterPB.ParseFromString bs = Some f →
  (6 ∉ numbers fs →
   CFileFooterPB.has_compression f = false
   ∧ CFileFooterPB.compression f = NO_COMPRESSION) ∧
  (8 ∉ numbers fs →
   CFileFooterPB.has_is_type_nullable f = false
   ∧ CFileFooterPB.is_type_nullable f = false).
Proof.
  intros Hfs Hf. apply CFileFooterPB_parsed in Hf as (fs' & Hfs' & Hm & _).
  assert (fs' = fs) as -> by congruence. split; intros Hn.
  - pose proof (MergeFields_absent _ CFileFooterPB.compression_ 6
                  CFileFooterPB_MergeField_compression _ _ _ Hm Hn) as E.
    unfold CFileFooterPB.has_compression, CFileFooterPB.compression.
    rewrite E. auto.
  - pose proof (MergeFields_absent _ CFileFooterPB.is_type_nullable_ 8
                  CFileFooterPB_MergeField_is_type_nullable _ _ _ Hm Hn) as E.
    unfold CFileFooterPB.has_is_type_nullable, CFileFooterPB.is_type_nullable.
    rewrite E. auto.
Qed.

End Footer.

(** ** The entity dump *)

Section Dump.
Context `{MasterProto}.

Lemma VisitTable_not_running table_id metadata jw :
  SysTablesEntryPB.state metadata ≠ SysTablesEntryPB_RUNNING →
  VisitTable table_id metadata jw = (jw, OK).
Proof.
  intros Hs. unfold VisitTable.
  destruct (Z.eqb_spec (SysTablesEntryPB.state metadata) SysTablesEntryPB_RUNNING);
    [contradiction|reflexivity].
Qed.

Lemma VisitTablet_not_running table_id tablet_id metadata jw :
  SysTabletsEntryPB.state metadata ≠ SysTabletsEntryPB_RUNNING →
  VisitTablet table_id tablet_id metadata jw = (jw, OK).
Proof.
  intros Hs. unfold VisitTablet.
  destruct (Z.eqb_spec (SysTabletsEntryPB.state metadata) SysTabletsEntryPB_RUNNING);
    [contradiction|reflexivity].
Qed.

(** Every call on the writer appends to its stream. *)
Lemma VisitTable_appends table_id metadata jw :
  VisitTable table_id metadata jw = (jw ++ table_object (table_id, metadata), OK).
Proof.
  unfold table_object, VisitTable. simpl.
  destruct (SysTablesEntryPB.state metadata =? SysTablesEntryPB_RUNNING); simpl.
  - unfold JsonWriter.EndObject, JsonWriter.String, JsonWriter.StartObject.
    rewrite <- !app_assoc. reflexivity.
  - rewrite app_nil_r. reflexivity.
Qed.

Lemma dump_peers_appends peers jw :
  foldl dump_peer jw peers = jw ++ foldl dump_peer [] peers.
Proof.
  revert jw. induction peers as [|peer peers IH]; intros jw; simpl.
  - rewrite app_nil_r. reflexivity.
  - rewrite IH, (IH (dump_peer [] peer)). rewrite app_assoc. f_equal.
    unfold dump_peer, JsonWriter.EndObject, JsonWriter.String, JsonWriter.StartObject.
    rewrite <- !app_assoc. reflexivity.
Qed.

Lemma VisitTablet_appends table_id tablet_id metadata jw :
  VisitTablet table_id tablet_id metadata jw
  = (jw ++ tablet_object (table_id, tablet_id, metadata), OK).
Proof.
  unfold tablet_object, VisitTablet. simpl.
  destruct (SysTabletsEntryPB.state metadata =? SysTabletsEntryPB_RUNNING); simpl.
  - f_equal.
    destruct (SysTabletsEntryPB.committed_consensus_state_ metadata) as [cs|].
    + unfold JsonWriter.EndObject, JsonWriter.EndArray, JsonWriter.StartArray,
        JsonWriter.String, JsonWriter.StartObject.
      rewrite dump_peers_appends.
      rewrite (dump_peers_appends _ (_ ++ _)).
      destruct (ConsensusStatePB.has_leader_uuid cs);
        simpl; rewrite <- ?app_assoc; reflexivity.
    + unfold JsonWriter.EndObject, JsonWriter.String, JsonWriter.StartObject.
      rewrite <- !app_assoc. reflexivity.
  - rewrite app_nil_r. reflexivity.
Qed.

(** A scan whose visitor appends [object row] for a row and never fails. *)
Lemma visit_rows_appends {Row : Type}
    (visit : Row → JsonWriter.t → JsonWriter.t * Status) (object : Row → JsonWriter.t) :
  (∀ row jw, visit row jw = (jw ++ object row, OK)) →
  ∀ rows scan jw,
    visit_rows visit rows scan jw = (jw ++ concat (object <$> rows), scan).
Proof.
  intros Hv rows scan. induction rows as [|row rows IH]; intros jw; simpl.
  - rewrite app_nil_r. reflexivity.
  - rewrite Hv. simpl. rewrite IH, app_assoc. reflexivity.
Qed.

Lemma concat_objects_filter {Row : Type} (object : Row → JsonWriter.t)
    (running : Row → bool) (rows : list Row) :
  (∀ row, running row = false → object row = []) →
  concat (object <$> rows) = concat (object <$> filter (λ row, running row = true) rows).
Proof.
  intros Hn. induction rows as [|row rows IH]; [reflexivity|].
  rewrite filter_cons. destruct (decide (running row = true)) as [Hr|Hr]; simpl.
  - f_equal. exact IH.
  - rewrite Hn by (destruct (running row); congruence). exact IH.
Qed.

Lemma table_object_not_running row : running_table row = false → table_object row = [].
Proof.
  unfold running_table, table_object. intros Hr.
  rewrite VisitTable_not_running; [reflexivity|].
  intros E. rewrite E, Z.eqb_refl in Hr. discriminate.
Qed.

Lemma tablet_object_not_running row : running_tablet row = false → tablet_object row = [].
Proof.
  unfold running_tablet, tablet_object. intros Hr.
  rewrite VisitTablet_not_running; [reflexivity|].
  intros E. rewrite E, Z.eqb_refl in Hr. discriminate.
Qed.

Lemma VisitTables_objects cat jw :
  VisitTables cat jw
  = (jw ++ concat (table_object <$> filter (λ row, running_table row = true) (table_rows cat)),
     tables_scan cat).
Proof.
  unfold VisitTables.
  rewrite (visit_rows_appends _ table_object).
  - rewrite (concat_objects_filter _ running_table); [reflexivity|].
    apply table_object_not_running.
  - intros [table_id metadata] jw'. apply VisitTable_appends.
Qed.

Lemma VisitTablets_objects cat jw :
  VisitTablets cat jw
  = (jw ++ concat (tablet_object <$> filter (λ row, running_tablet row = true) (tablet_rows cat)),
     tablets_scan cat).
Proof.
  unfold VisitTablets.
  rewrite (visit_rows_appends _ tablet_object).
  - rewrite (concat_objects_filter _ running_tablet); [reflexivity|].
    apply tablet_object_not_running.
  - intros [[table_id tablet_id] metadata] jw'. apply VisitTablet_appends.
Qed.

(** C10: a visit of a table or of a tablet whose state is not RUNNING writes
    nothing and returns OK; when both scans return OK the dump is the outer
    object with, in its two arrays, the objects of the RUNNING rows only, in
    the order of the scan; so that the dump of a catalog is the dump of its
    RUNNING rows. *)
Theorem HandleDumpEntities_running_only :
  (∀ table_id metadata jw,
     SysTablesEntryPB.state metadata ≠ SysTablesEntryPB_RUNNING →
     VisitTable table_id metadata jw = (jw, OK)) ∧
  (∀ table_id tablet_id metadata jw,
     SysTabletsEntryPB.state metadata ≠ SysTabletsEntryPB_RUNNING →
     VisitTablet table_id tablet_id metadata jw = (jw, OK)) ∧
  (∀ cat, tables_scan cat = OK → tablets_scan cat = OK →
     HandleDumpEntities cat =
     [JsonWriter.CStartObject; JsonWriter.CString "tables"; JsonWriter.CStartArray]
     ++ concat (table_object <$> filter (λ row, running_table row = true) (table_rows cat))
     ++ [JsonWriter.CEndArray; JsonWriter.CString "tablets"; JsonWriter.CStartArray]
     ++ concat (tablet_object <$> filter (λ row, running_tablet row = true) (tablet_rows cat))
     ++ [JsonWriter.CEndArray; JsonWriter.CEndObject]) ∧
  (∀ cat, HandleDumpEntities cat = HandleDumpEntities (running_only cat)).
Proof.
  split; [|split; [|split]].
  - apply VisitTable_not_running.
  - apply VisitTablet_not_running.
  - intros cat Ht Hb. unfold HandleDumpEntities.
    rewrite VisitTables_objects, Ht. simpl.
    rewrite VisitTablets_objects, Hb. simpl.
    unfold JsonWriter.EndObject, JsonWriter.EndArray, JsonWriter.StartArray,
      JsonWriter.String.
    repeat (rewrite <- app_assoc; simpl). reflexivity.
  - intros cat. unfold HandleDumpEntities.
    rewrite !VisitTables_objects, !VisitTablets_objects. simpl.
    rewrite !list_filter_filter.
    assert (∀ {Row} (running : Row → bool) (rows : list Row),
              filter (λ row, running row = true ∧ running row = true) rows
              = filter (λ row, running row = true) rows) as Hff.
    { intros Row running rows. apply list_filter_iff. tauto. }
    rewrite !Hff. reflexivity.
Qed.

End Dump.

(** ** The writer of the specification *)

Section WriterFacts.
Import spec spec.CFileWriter.
Context {Value : Type} `{EqDecision Value} `{Format Value}.

Lemma create_writing o header : writing o (create o header).
Proof.
  unfold writing, create. simpl. repeat split.
  destruct (dictionary_based (opt_encoding o)); reflexivity.
Qed.

Lemma flush_data_block_writing o w : writing o w → writing o (flush_data_block w).
Proof.
  unfold flush_data_block. destruct (pending w); [auto|].
  destruct (append_block _ _ _) as [f ptr]. auto.
Qed.

Lemma write_value_writing o w v w' :
  writing o w → write_value w v = Ok w' → writing o w'.
Proof.
  intros (Hs & Ho & Hd). unfold write_value.
  destruct (_ && _); [discriminate|]. intros [= <-].
  case_decide; [apply flush_data_block_writing|]; repeat split; simpl; auto;
    rewrite <- Hd; destruct (dictionary w); reflexivity.
Qed.

Lemma write_values_writing o values : ∀ w w',
  writing o w → write_values w values = Ok w' → writing o w'.
Proof.
  induction values as [|v values IH]; intros w w' Hw; simpl.
  - intros [= <-]. exact Hw.
  - destruct (write_value w v) as [w1|e] eqn:E; [|discriminate].
    cbn. eauto using write_value_writing.
Qed.

Lemma write_all_writing o batches : ∀ w w',
  writing o w → write_all w batches = Ok w' → writing o w'.
Proof.
  induction batches as [|values batches IH]; intros w w' Hw; simpl.
  - intros [= <-]. exact Hw.
  - destruct (write w values) as [w1|e] eqn:E; [|discriminate].
    cbn. intros Hall. apply (IH w1); [|exact Hall].
    unfold write in E. destruct Hw as (Hs & Ho & Hd). rewrite Hs in E.
    eapply write_values_writing; [|exact E]. repeat split; auto.
Qed.

Lemma finish_footer o w w' footer :
  writing o w → finish w = Ok (w', footer) →
  state w' = FINISHED ∧
  CFileFooterPB.encoding_ footer = Some (opt_encoding o) ∧
  CFileFooterPB.has_dict_block_ptr footer = dictionary_based (opt_encoding o).
Proof.
  intros Hw. apply flush_data_block_writing in Hw as Hf.
  destruct Hw as (Hs & _ & _). destruct Hf as (_ & Ho & Hd).
  unfold finish. rewrite Hs.
  set (wf := flush_data_block w) in *.
  destruct (dictionary wf) as [table|] eqn:Edict.
  - destruct (append_block _ _ _) as [f dict_ptr].
    destruct (or_fail _ (build_index _ _ _ _ _)) as [[f1 posidx]|e]; [|discriminate].
    cbn.
    destruct (opt_value_index (options wf)).
    + destruct (or_fail _ (build_index _ _ _ _ _)) as [[f2 info]|e]; [|discriminate].
      cbn. intros [= <- <-]. rewrite Ho, <- Hd. auto.
    + cbn. intros [= <- <-]. rewrite Ho, <- Hd. auto.
  - destruct (or_fail _ (build_index _ _ _ _ _)) as [[f1 posidx]|e]; [|discriminate].
    cbn.
    destruct (opt_value_index (options wf)).
    + destruct (or_fail _ (build_index _ _ _ _ _)) as [[f2 info]|e]; [|discriminate].
      cbn. intros [= <- <-]. rewrite Ho, <- Hd. auto.
    + cbn. intros [= <- <-]. rewrite Ho, <- Hd. auto.
Qed.

(** C4: a write session that completes leaves the writer FINISHED, and its
    footer declares the encoding of the options and has a dict_block_ptr if
    and only if that encoding is dictionary-based. *)
Theorem session_dict_block_ptr o header batches w footer :
  session o header batches = Ok (w, footer) →
  state w = FINISHED ∧
  CFileFooterPB.encoding_ footer = Some (opt_encoding o) ∧
  (CFileFooterPB.has_dict_block_ptr footer = true ↔
   dictionary_based (opt_encoding o) = true).
Proof.
  unfold session.
  destruct (write_all (create o header) batches) as [w1|e] eqn:E; [|discriminate].
  cbn. intros Hfin.
  pose proof (write_all_writing o batches _ _ (create_writing o header) E) as Hw.
  destruct (finish_footer o w1 w footer Hw Hfin) as (Hs & He & Hd).
  rewrite Hd. tauto.
Qed.

End WriterFacts.

(** ** The block pointers of a written file *)

Section WriterPointers.
Import spec spec.CFileWriter block_pointers.
Context {Value : Type} `{EqDecision Value} `{Format Value}.

(** The encoders give at least one byte for a complete block. *)
Hypothesis block_bytes_nonempty :
  ∀ c (b : Block Value), complete b → block_bytes c b ≠ [].

Lemma points_into_longer ptr f f' :
  points_into ptr f → (length f ≤ length f')%nat → points_into ptr f'.
Proof. unfold points_into. lia. Qed.

Lemma append_block_points_into o f b :
  complete b →
  points_into (append_block o f b).2 (append_block o f b).1
  ∧ (length f ≤ length (append_block o f b).1)%nat.
Proof.
  intros Hb. unfold append_block, points_into, BlockPointerPB.offset, BlockPointerPB.size.
  cbn [fst snd BlockPointerPB.offset_ BlockPointerPB.size_ default from_option].
  rewrite length_app.
  pose proof (block_bytes_nonempty (opt_compression o) b Hb) as Hne.
  destruct (block_bytes (opt_compression o) b); [congruence|].
  cbn [length]. unfold id. lia.
Qed.

Lemma flush_data_block_pointers w : flushed_in_file w → flushed_in_file (flush_data_block w).
Proof.
  unfold flush_data_block, flushed_in_file. intros Hw.
  destruct (pending w) as [|v vs] eqn:Ep; [exact Hw|].
  set (b := DataBlock _ _).
  destruct (append_block_points_into (options w) (file w) b I) as [Hptr Hlen].
  destruct (append_block (options w) (file w) b) as [f ptr]. cbn [fst snd] in *.
  cbn [file flushed]. apply Forall_app. split.
  - eapply Forall_impl; [exact Hw|]. intros x Hx. cbn beta in *.
    eapply points_into_longer; [exact Hx|exact Hlen].
  - constructor; [exact Hptr|constructor].
Qed.

Lemma write_value_pointers w v w' :
  flushed_in_file w → write_value w v = Ok w' → flushed_in_file w'.
Proof.
  intros Hw. unfold write_value. destruct (_ && _); [discriminate|]. intros [= <-].
  case_decide; [apply flush_data_block_pointers|]; exact Hw.
Qed.

Lemma write_values_pointers values : ∀ w w',
  flushed_in_file w → write_values w values = Ok w' → flushed_in_file w'.
Proof.
  induction values as [|v values IH]; intros w w' Hw; cbn [write_values].
  - intros [= <-]. exact Hw.
  - destruct (write_value w v) as [w1|e] eqn:E; [|discriminate].
    cbn. eauto using write_value_pointers.
Qed.

Lemma write_all_pointers batches : ∀ w w',
  flushed_in_file w → write_all w batches = Ok w' → flushed_in_file w'.
Proof.
  induction batches as [|values batches IH]; intros w w' Hw; cbn [write_all].
  - intros [= <-]. exact Hw.
  - destruct (write w values) as [w1|e] eqn:E; [|discriminate].
    cbn. apply IH. unfold write in E.
    destruct (state w); try discriminate. eapply write_values_pointers; eauto.
Qed.

Lemma write_bloom_blocks_length o blocks : ∀ f,
  (length f ≤ length (write_bloom_blocks o blocks f))%nat.
Proof.
  unfold write_bloom_blocks.
  induction blocks as [|b blocks IH]; intros f; cbn [foldl]; [lia|].
  etransitivity; [|apply IH]. unfold append_block. cbn [fst]. rewrite length_app. lia.
Qed.

Lemma write_level_pointers o ty fuel : ∀ entries f f' parents,
  write_level fuel o ty entries f = (f', parents) →
  (length f ≤ length f')%nat ∧ Forall (λ e, points_into e.2 f') parents.
Proof.
  induction fuel as [|fuel IH]; intros entries f f' parents; cbn [write_level].
  - intros [= <- <-]. split; [lia|constructor].
  - destruct entries as [|[k p] entries]; [intros [= <- <-]; split; [lia|constructor]|].
    set (b := IndexBlock _ _).
    destruct (append_block_points_into o f b eq_refl) as [Hptr Hlen].
    destruct (append_block o f b) as [f1 ptr]. cbn [fst snd] in *.
    destruct (write_level fuel o ty _ f1) as [f2 ps] eqn:E.
    intros [= <- <-]. apply IH in E as [Hlen2 Hps]. split; [lia|].
    constructor; [|exact Hps]. cbn [snd]. eapply points_into_longer; eauto.
Qed.

Lemma build_index_root o fuel : ∀ ty entries f f' info,
  build_index fuel o ty entries f = Some (f', info) →
  (length f ≤ length f')%nat
  ∧ ∃ root, BTreeInfoPB.root_block_ info = Some root ∧ points_into root f'.
Proof.
  induction fuel as [|fuel IH]; intros ty entries f f' info;
    (destruct entries as [|e entries]; cbn [build_index];
     [set (b := IndexBlock _ _);
      destruct (append_block_points_into o f b eq_refl) as [Hptr Hlen];
      destruct (append_block o f b) as [f1 ptr]; cbn [fst snd] in *;
      intros [= <- <-]; eauto|]).
  - destruct (write_level _ o ty (e :: entries) f) as [f1 parents] eqn:E.
    apply write_level_pointers in E as [Hlen Hps].
    destruct parents as [|[k root] [|p ps]]; try discriminate.
    intros [= <- <-]. apply Forall_cons in Hps as [Hroot _]. eauto.
  - destruct (write_level _ o ty (e :: entries) f) as [f1 parents] eqn:E.
    apply write_level_pointers in E as [Hlen Hps].
    destruct parents as [|[k root] [|p ps]].
    + intros Hb. apply IH in Hb as [Hlen' Hroot]. split; [lia|exact Hroot].
    + intros [= <- <-]. apply Forall_cons in Hps as [Hroot _]. eauto.
    + intros Hb. apply IH in Hb as [Hlen' Hroot]. split; [lia|exact Hroot].
Qed.

Lemma finish_pointers w w' footer :
  flushed_in_file w → finish w = Ok (w', footer) →
  Forall (λ ptr, points_into ptr (file w')) (recorded w' footer).
Proof.
  intros Hw. apply flush_data_block_pointers in Hw.
  unfold finish. destruct (state w); try discriminate.
  set (wf := flush_data_block w) in *.
  assert (∀ f dict_ptr,
            (length (file wf) ≤ length f)%nat →
            from_option (λ ptr, points_into ptr f) True dict_ptr →
            ('(f, posidx) ←
               or_fail InvalidState
                 (build_index (length (flushed wf)) (options wf) IndexBlockTrailerPB.LEAF
                    ((λ b, (Ordinal (first_ordinal b), pointer b)) <$> flushed wf)
                    (write_bloom_blocks (options wf) (flushed wf) f));
             '(f, validx) ←
               (if opt_value_index (options wf) then
                  '(f, info) ←
                    or_fail InvalidState
                      (build_index (length (flushed wf)) (options wf)
                         IndexBlockTrailerPB.LEAF (value_entries (flushed wf)) f);
                  Ok (f, Some info)
                else Ok (f, None));
             let footer :=
               CFileFooterPB.mk (Some (opt_data_type (options wf)))
                 (Some (opt_encoding (options wf))) (Some (num_values wf)) (Some posidx)
                 validx (Some (opt_compression (options wf))) []
                 (Some (opt_is_type_nullable (options wf))) dict_ptr in
             let fb := footer_bytes footer in
             let f := f ++ fb ++ length_bytes (Z.of_nat (length fb)) ++ magic in
             Ok (mk FINISHED (options wf) f [] (flushed wf) (dictionary wf) (num_values wf),
                 footer)) = Ok (w', footer) →
            Forall (λ ptr, points_into ptr (file w')) (recorded w' footer)) as Hrest.
  { intros f dict_ptr Hlen Hdict.
    pose proof (write_bloom_blocks_length (options wf) (flushed wf) f) as Hbloom.
    destruct (build_index _ _ _ _ (write_bloom_blocks _ _ f)) as [[f1 posidx]|] eqn:Epos;
      [|discriminate].
    apply build_index_root in Epos as (Hlen1 & root & Eroot & Hroot).
    cbn [or_fail mbind Result_bind].
    assert (∀ f2 validx,
              (length f1 ≤ length f2)%nat →
              from_option (λ info, ∃ vroot, BTreeInfoPB.root_block_ info = Some vroot
                                            ∧ points_into vroot f2) True validx →
              ∀ rest,
              Forall (λ ptr, points_into ptr (f2 ++ rest))
                (recorded
                   (mk FINISHED (options wf) (f2 ++ rest) [] (flushed wf) (dictionary wf)
                      (num_values wf))
                   (CFileFooterPB.mk (Some (opt_data_type (options wf)))
                      (Some (opt_encoding (options wf))) (Some (num_values wf))
                      (Some posidx) validx (Some (opt_compression (options wf))) []
                      (Some (opt_is_type_nullable (options wf))) dict_ptr))) as Hall.
    { intros f2 validx Hlen2 Hval rest.
      assert (length f2 ≤ length (f2 ++ rest))%nat as Hlen3
        by (rewrite length_app; lia).
      unfold recorded.
      cbn [file flushed CFileFooterPB.posidx_info_ CFileFooterPB.validx_info_
           CFileFooterPB.dict_block_ptr_ mbind option_bind].
      rewrite Eroot. repeat (apply Forall_app; split).
      - apply Forall_fmap. eapply Forall_impl; [exact Hw|]. intros b Hb. cbn.
        eapply points_into_longer; [exact Hb|lia].
      - constructor; [|constructor]. eapply points_into_longer; [exact Hroot|lia].
      - destruct validx as [info|]; cbn [mbind option_bind]; [|constructor].
        destruct Hval as (vroot & -> & Hvroot). constructor; [|constructor].
        eapply points_into_longer; [exact Hvroot|lia].
      - destruct dict_ptr as [ptr|]; [|constructor]. constructor; [|constructor].
        eapply points_into_longer; [exact Hdict|lia]. }
    destruct (opt_value_index (options wf)).
    - destruct (build_index _ _ _ (value_entries _) f1) as [[f2 info]|] eqn:Eval;
        [|discriminate].
      apply build_index_root in Eval as (Hlen2 & Hvroot).
      cbn [or_fail mbind Result_bind]. intros [= <- <-].
      apply Hall; [exact Hlen2|exact Hvroot].
    - cbn [or_fail mbind Result_bind]. intros [= <- <-].
      apply Hall; [lia|exact I]. }
  destruct (dictionary wf) as [table|].
  - set (b := DictionaryBlock table).
    destruct (append_block_points_into (options wf) (file wf) b I) as [Hptr Hlen].
    destruct (append_block (options wf) (file wf) b) as [f ptr]. cbn [fst snd] in *.
    apply Hrest; [exact Hlen|exact Hptr].
  - apply Hrest; [lia|exact I].
Qed.


End WriterPointers.

(** ** The reader of the specification *)

Section ReaderFacts.
Import spec spec.CFileReader.
Context `{CommonProto} {Value : Type} `{Format Value} `{Decoders Value}.

(** The footer of an opened reader is a decoded footer. *)
Lemma open_footer f r :
  open f = Ok r → ∃ bs, CFileFooterPB.ParseFromString bs = Some (footer r).
Proof.
  unfold open. destruct (negb _); [discriminate|].
  case_decide; [discriminate|].
  match goal with
  | |- context [or_fail _ ?o] => destruct o as [len|]; [|discriminate]
  end.
  cbn. destruct (_ || _); [discriminate|].
  match goal with
  | |- context [or_fail _ ?o] => destruct o as [ft|] eqn:E; [|discriminate]
  end.
  cbn. intros [= <-]. eauto.
Qed.

(** C5: on a reader opened on a file whose footer has no validx_info, every
    seekToValue fails with UnsupportedOperation; a seekToValue that returns
    a result was made on a footer that has a validx_info. *)
Theorem seekToValue_needs_validx_info f r :
  open f = Ok r →
  (CFileFooterPB.has_validx_info (footer r) = false →
   ∀ v, seekToValue r v = Err UnsupportedOperation) ∧
  (∀ v result, seekToValue r v = Ok result →
   CFileFooterPB.has_validx_info (footer r) = true).
Proof.
  intros _. unfold seekToValue, CFileFooterPB.has_validx_info. split.
  - intros Hno v. destruct (CFileFooterPB.validx_info_ (footer r)); [discriminate|].
    reflexivity.
  - intros v result. destruct (CFileFooterPB.validx_info_ (footer r)); [reflexivity|].
    discriminate.
Qed.

End ReaderFacts.

(** ** The theorems at concrete inputs *)

Section Examples.
Import spec example_data.

(** C1 fails as the claim has it: these six bytes are a footer, with its
    three required fields, that has no posidx_info. *)
Lemma CFileFooterPB_without_posidx_info :
  @CFileFooterPB.ParseFromString example_common bare_footer = Some bare_footer_pb
  ∧ CFileFooterPB.has_posidx_info bare_footer_pb = false.
Proof. split; vm_compute; reflexivity. Qed.

(** C1 at the footer that has a position index. *)
Lemma CFileFooterPB_posidx_info_optional_witness :
  CFileFooterPB.has_data_type indexed_footer_pb = true
  ∧ CFileFooterPB.has_posidx_info indexed_footer_pb = true.
Proof.
  destruct (@CFileFooterPB_posidx_info_optional example_common indexed_footer
              [(1, VARINT 5); (2, VARINT 1); (3, VARINT 1000);
               (4, LENGTH_DELIMITED [x0a; x04; x08; x10; x10; x20]); (8, VARINT 1)]
              indexed_footer_pb)
    as (Hd & _ & _ & Hp); [vm_compute; reflexivity..|].
  split; [exact Hd|]. apply Hp. eexists. apply list_elem_of_In. simpl. eauto 10.
Defined.

(** C2 at an INTERNAL trailer of seven entries, and at the same trailer with
    the undeclared type number 2. *)
Lemma IndexBlockTrailerPB_type_declared_witness :
  IndexBlockTrailerPB.has_type
    (IndexBlockTrailerPB.mk (Some 7) (Some IndexBlockTrailerPB.INTERNAL)) = true
  ∧ IndexBlockTrailerPB.ParseFromString [x08; x07; x10; x02] = None.
Proof.
  destruct IndexBlockTrailerPB_type_declared as (Hdecoded & _ & Hrefused). split.
  - apply (Hdecoded [x08; x07; x10; x01]). vm_compute. reflexivity.
  - apply (Hrefused _ [(1, VARINT 7); (2, VARINT 2)]); [vm_compute; reflexivity|].
    intros v Hv. apply list_elem_of_In in Hv. simpl in Hv.
    destruct Hv as [[=]|[[= <-]|[]]]. vm_compute. reflexivity.
Defined.

(** C4 at the session with the dictionary encoding. *)
Lemma session_dict_block_ptr_witness :
  CFileWriter.dictionary dictionary_written.1 = Some [10; 20; 50]
  ∧ CFileFooterPB.has_dict_block_ptr dictionary_written.2 = true.
Proof.
  split; [reflexivity|].
  eapply (@session_dict_block_ptr Z _ example.format example.dictionary
            example.header [[10; 20; 10]; [20; 50]]
            dictionary_written.1 dictionary_written.2);
    vm_compute; reflexivity.
Defined.

(** C5 at the file written without a value index. *)
Lemma seekToValue_needs_validx_info_witness :
  CFileReader.seekToValue plain_reader 35 = Err UnsupportedOperation.
Proof.
  apply (@seekToValue_needs_validx_info example_common Z example.format
           example.decoders plain_file plain_reader); vm_compute; reflexivity.
Defined.

(** C6 at the footer with the three required fields only. *)
Lemma CFileFooterPB_defaults_witness :
  @CFileFooterPB.compression example_common bare_footer_pb = 1
  ∧ CFileFooterPB.is_type_nullable bare_footer_pb = false.
Proof.
  destruct (@CFileFooterPB_defaults example_common bare_footer
              [(1, VARINT 5); (2, VARINT 1); (3, VARINT 0)] bare_footer_pb)
    as (Hc & Hn); [vm_compute; reflexivity..|].
  split; [apply Hc | apply Hn]; intros Hin; apply list_elem_of_In in Hin;
    simpl in Hin; intuition discriminate.
Defined.

(** C9 at the footer that has a position index. *)
Lemma CFileFooterPB_index_has_root_witness :
  BTreeInfoPB.has_root_block
    (BTreeInfoPB.mk (Some (BlockPointerPB.mk (Some 16) (Some 32)))) = true.
Proof.
  eapply (@CFileFooterPB_index_has_root example_common indexed_footer).
  - vm_compute. reflexivity.
  - left. reflexivity.
Defined.

(** C10 at the example catalog: its removed table and its deleted tablet
    leave no trace. *)
Lemma HandleDumpEntities_running_only_witness :
  @VisitTable example_master "t2" (SysTablesEntryPB.mk "old" 4) [] = ([], OK)
  ∧ @VisitTablet example_master "t2" "b" (SysTabletsEntryPB.mk 4 None) [] = ([], OK)
  ∧ @HandleDumpEntities example_master catalog
    = @HandleDumpEntities example_master (@running_only example_master catalog).
Proof.
  destruct (@HandleDumpEntities_running_only example_master) as (Ht & Hb & _ & Hr).
  split; [|split].
  - apply Ht. simpl. discriminate.
  - apply Hb. simpl. discriminate.
  - apply Hr.
Defined.

(** The dump of the example catalog: one table and one tablet. *)
Example HandleDumpEntities_example :
  @HandleDumpEntities example_master catalog =
  [JsonWriter.CStartObject; JsonWriter.CString "tables"; JsonWriter.CStartArray;
   JsonWriter.CStartObject;
   JsonWriter.CString "table_id"; JsonWriter.CString "t1";
   JsonWriter.CString "table_name"; JsonWriter.CString "orders";
   JsonWriter.CString "state"; JsonWriter.CString "RUNNING";
   JsonWriter.CEndObject; JsonWriter.CEndArray;
   JsonWriter.CString "tablets"; JsonWriter.CStartArray;
   JsonWriter.CStartObject;
   JsonWriter.CString "table_id"; JsonWriter.CString "t1";
   JsonWriter.CString "tablet_id"; JsonWriter.CString "a";
   JsonWriter.CString "state"; JsonWriter.CString "RUNNING";
   JsonWriter.CString "replicas"; JsonWriter.CStartArray;
   JsonWriter.CStartObject;
   JsonWriter.CString "type"; JsonWriter.CString "VOTER";
   JsonWriter.CString "server_uuid"; JsonWriter.CString "u1";
   JsonWriter.CString "addr"; JsonWriter.CString "h:7050";
   JsonWriter.CEndObject; JsonWriter.CEndArray;
   JsonWriter.CString "leader"; JsonWriter.CString "u1";
   JsonWriter.CEndObject; JsonWriter.CEndArray; JsonWriter.CEndObject].
Proof. vm_compute. reflexivity. Qed.

(** Seek by value on the file with a value index: 35 is in the block that
    starts with 30, anything below 10 leads to the first block. *)
Example seekToValue_example :
  CFileReader.seekToValue sorted_reader 35 = Ok (BlockPointerPB.mk (Some 8) (Some 4))
  ∧ CFileReader.seekToValue sorted_reader 5 = Ok (BlockPointerPB.mk (Some 4) (Some 4)).
Proof. split; vm_compute; reflexivity. Qed.

(** Values out of order with a value index asked for: InvalidState; so is a
    write after finish. *)
Example write_InvalidState_example :
  CFileWriter.session example.sorted example.header [[10; 20; 30]; [25; 50]]
  = Err InvalidState
  ∧ (w ← CFileWriter.session example.sorted example.header [[1]];
     CFileWriter.write w.1 [2]) = Err InvalidState.
Proof. split; vm_compute; reflexivity. Qed.

(** A thousand ascending values in blocks of a hundred: ten data blocks,
    no value index, and a footer that counts a thousand values. *)
Example thousand_values_example :
  (λ r, (length (CFileWriter.flushed r.1),
         CFileFooterPB.num_values r.2,
         CFileFooterPB.has_posidx_info r.2,
         CFileFooterPB.has_validx_info r.2))
    <$> succeeded (CFileWriter.session thousand example.header [seqZ 0 1000])
  = Some (10%nat, 1000, true, false).
Proof. vm_compute. reflexivity. Qed.

End Examples.

(** * More lemmas *)

(** The hypotheses on the ranges of concrete messages are decided by
    computation. *)
Ltac in_ranges :=
  repeat first [split | apply Forall_nil | apply Forall_cons];
  vm_compute; first [reflexivity | discriminate | exact I].

(** ** The wire format: writing then reading *)

Lemma byte_val_byte_of x : 0 ≤ x < 256 → byte_val (byte_of x) = x.
Proof.
  intros Hx. unfold byte_val, byte_of.
  destruct (Byte.of_N (Z.to_N x)) as [b|] eqn:E; simpl.
  - apply Byte.to_of_N in E. rewrite E. lia.
  - apply Byte.of_N_None_iff in E. lia.
Qed.

Lemma byte_val_range b : 0 ≤ byte_val b < 256.
Proof. unfold byte_val. pose proof (Byte.to_N_bounded b). lia. Qed.

Lemma land_low_shifted r q : 0 ≤ r < 128 → Z.land r (Z.shiftl q 7) = 0.
Proof.
  intros Hr. apply Z.bits_inj'. intros i Hi.
  rewrite Z.land_spec, Z.bits_0.
  destruct (Z.lt_ge_cases i 7) as [Hlt|Hge].
  - rewrite (Z.shiftl_spec_low q 7 i Hlt). apply andb_false_r.
  - destruct (Z.eq_dec r 0) as [->|Hr0]; [rewrite Z.bits_0; reflexivity|].
    rewrite (Z.bits_above_log2 r i); [reflexivity|lia|].
    apply Z.lt_le_trans with 7; [apply Z.log2_lt_pow2; lia|lia].
Qed.

Lemma lor_shift_add r q s :
  0 ≤ r < 128 → 0 ≤ s →
  Z.lor (Z.shiftl r s) (Z.shiftl q (s + 7)) = Z.shiftl (r + 128 * q) s.
Proof.
  intros Hr Hs.
  replace (s + 7) with (7 + s) by lia.
  rewrite <- (Z.shiftl_shiftl q 7 s) by lia.
  rewrite <- Z.shiftl_lor. f_equal.
  rewrite <- Z.lxor_lor by (apply land_low_shifted; exact Hr).
  rewrite <- Z.add_nocarry_lxor by (apply land_low_shifted; exact Hr).
  rewrite Z.shiftl_mul_pow2 by lia. lia.
Qed.

Lemma low_byte v :
  0 ≤ v < 128 → Z.testbit v 7 = false ∧ Z.land v 127 = v.
Proof.
  intros Hv. split.
  - destruct (Z.eq_dec v 0) as [->|Hv0]; [reflexivity|].
    apply Z.bits_above_log2; [lia|]. apply Z.log2_lt_pow2; lia.
  - change 127 with (Z.ones 7). rewrite Z.land_ones by lia.
    apply Z.mod_small. lia.
Qed.

Lemma continued_byte r :
  0 ≤ r < 128 → Z.testbit (128 + r) 7 = true ∧ Z.land (128 + r) 127 = r.
Proof.
  intros Hr. split.
  - apply Z.testbit_true; [lia|].
    replace ((128 + r) / 2 ^ 7) with 1; [reflexivity|].
    apply Z.div_unique with r; lia.
  - change 127 with (Z.ones 7). rewrite Z.land_ones by lia.
    symmetry. apply Z.mod_unique with 1; lia.
Qed.

(** A varint that is written is read back, whatever follows it. *)
Lemma ReadVarint_WriteVarint n : ∀ v shift rest,
  (0 < n)%nat → 0 ≤ v < 2 ^ (7 * Z.of_nat n) → 0 ≤ shift →
  ReadVarint n shift (WriteVarint n v ++ rest) = Some (Z.shiftl v shift, rest).
Proof.
  induction n as [|n IH]; intros v shift rest Hn Hv Hs; [lia|].
  cbn [WriteVarint]. destruct (Z.ltb_spec v 128) as [Hlt|Hge].
  - cbn [app]. rewrite ReadVarint_S. cbv zeta.
    rewrite byte_val_byte_of by lia.
    destruct (low_byte v) as [-> ->]; [lia|]. reflexivity.
  - cbn [app]. rewrite ReadVarint_S. cbv zeta.
    pose proof (Z.mod_pos_bound v 128 ltac:(lia)) as Hr.
    rewrite byte_val_byte_of by lia.
    destruct (continued_byte (v mod 128)) as [-> ->]; [lia|].
    assert (0 ≤ v / 128 < 2 ^ (7 * Z.of_nat n)) as Hq.
    { split; [apply Z.div_pos; lia|].
      apply Z.div_lt_upper_bound; [lia|].
      replace (128 * 2 ^ (7 * Z.of_nat n)) with (2 ^ (7 * Z.of_nat (S n))); [lia|].
      replace (7 * Z.of_nat (S n)) with (7 + 7 * Z.of_nat n) by lia.
      rewrite Z.pow_add_r by lia. reflexivity. }
    assert (0 < n)%nat as Hn'.
    { destruct n; [|lia]. simpl in Hq. assert (v / 128 = 0) as Hz by lia.
      apply Z.div_small_iff in Hz; lia. }
    rewrite (IH (v / 128) (shift + 7) rest Hn' Hq) by lia.
    cbn [mbind option_bind]. rewrite lor_shift_add by lia.
    do 3 f_equal. pose proof (Z.div_mod v 128 ltac:(lia)). lia.
Qed.

Lemma ReadVarint64_WriteVarint64 v rest :
  ReadVarint64 (WriteVarint64 v ++ rest) = Some (v mod 2 ^ 64, rest).
Proof.
  unfold ReadVarint64, WriteVarint64.
  pose proof (Z.mod_pos_bound v (2 ^ 64) ltac:(lia)) as Hv.
  rewrite ReadVarint_WriteVarint; [|lia| |lia].
  - cbn [mbind option_bind]. rewrite Z.shiftl_0_r, Z.mod_mod by lia. reflexivity.
  - change (7 * Z.of_nat 10) with 70. lia.
Qed.

Lemma WriteVarint_S n v :
  WriteVarint (S n) v =
  if v <? 128 then [byte_of v]
  else byte_of (128 + v mod 128) :: WriteVarint n (v / 128).
Proof. reflexivity. Qed.

Lemma WriteVarint_length n w : (1 ≤ length (WriteVarint (S n) w) ≤ S n)%nat.
Proof.
  revert w. induction n as [|n IH]; intros w; rewrite WriteVarint_S.
  - destruct (w <? 128); simpl; lia.
  - destruct (w <? 128); [simpl; lia|].
    specialize (IH (w / 128)). rewrite length_cons. lia.
Qed.

Lemma WriteVarint64_length v : (1 ≤ length (WriteVarint64 v) ≤ 10)%nat.
Proof. apply WriteVarint_length. Qed.

(** What a reader has read from an input, it reads from the input with
    more bytes after it, and leaves those bytes behind. *)
Lemma ReadVarint_app n : ∀ shift bs v r t,
  ReadVarint n shift bs = Some (v, r) → ReadVarint n shift (bs ++ t) = Some (v, r ++ t).
Proof.
  induction n as [|n IH]; intros shift bs v r t; [discriminate|].
  destruct bs as [|b bs]; [discriminate|].
  cbn [app]. rewrite !ReadVarint_S. cbv zeta.
  destruct (Z.testbit (byte_val b) 7); [|intros [= <- <-]; reflexivity].
  destruct (ReadVarint n (shift + 7) bs) as [[hi r']|] eqn:E; [|discriminate].
  intros [= <- <-]. rewrite (IH _ _ _ _ t E). reflexivity.
Qed.

Lemma ReadVarint64_app bs v r t :
  ReadVarint64 bs = Some (v, r) → ReadVarint64 (bs ++ t) = Some (v, r ++ t).
Proof.
  unfold ReadVarint64.
  destruct (ReadVarint 10 0 bs) as [[w r']|] eqn:E; [|discriminate].
  intros [= <- <-]. rewrite (ReadVarint_app _ _ _ _ _ t E). reflexivity.
Qed.

Lemma ReadVarint32_app bs v r t :
  ReadVarint32 bs = Some (v, r) → ReadVarint32 (bs ++ t) = Some (v, r ++ t).
Proof.
  unfold ReadVarint32.
  destruct (ReadVarint64 bs) as [[w r']|] eqn:E; [|discriminate].
  intros [= <- <-]. rewrite (ReadVarint64_app _ _ _ t E). reflexivity.
Qed.

Lemma ReadLittleEndian_app n : ∀ bs v r t,
  ReadLittleEndian n bs = Some (v, r) → ReadLittleEndian n (bs ++ t) = Some (v, r ++ t).
Proof.
  induction n as [|n IH]; intros bs v r t; simpl.
  - intros [= <- <-]. reflexivity.
  - destruct bs as [|b bs]; [discriminate|]. cbn [app].
    destruct (ReadLittleEndian n bs) as [[w r']|] eqn:E; [|discriminate].
    intros [= <- <-]. rewrite (IH _ _ _ t E). reflexivity.
Qed.

Lemma ReadBytes_app len bs payload r t :
  ReadBytes len bs = Some (payload, r) →
  ReadBytes len (bs ++ t) = Some (payload, r ++ t).
Proof.
  unfold ReadBytes.
  destruct (Z.leb_spec (2 ^ 31) len); [discriminate|].
  destruct (Z.ltb_spec (Z.of_nat (length bs)) len); [discriminate|].
  intros [= <- <-]. rewrite length_app.
  destruct (Z.ltb_spec (Z.of_nat (length bs + length t)) len); [lia|]. simpl.
  rewrite take_app_le, drop_app_le by lia. reflexivity.
Qed.

Lemma read_value_app fuel fuel' number wire_type r0 v r1 t :
  (∀ bs fs r,
     ReadFields fuel (Some number) bs = Some (fs, r) → r0 = bs →
     ReadFields fuel' (Some number) (bs ++ t) = Some (fs, r ++ t)) →
  (if wire_type =? 0 then
     '(v, r) ← ReadVarint64 r0; Some (VARINT v, r)
   else if wire_type =? 1 then
     '(v, r) ← ReadLittleEndian 8 r0; Some (FIXED64 v, r)
   else if wire_type =? 2 then
     '(len, r) ← ReadVarint32 r0;
     '(payload, r') ← ReadBytes len r; Some (LENGTH_DELIMITED payload, r')
   else if wire_type =? 3 then
     '(_, r) ← ReadFields fuel (Some number) r0; Some (GROUP, r)
   else if wire_type =? 5 then
     '(v, r) ← ReadLittleEndian 4 r0; Some (FIXED32 v, r)
   else None) = Some (v, r1) →
  (if wire_type =? 0 then
     '(v, r) ← ReadVarint64 (r0 ++ t); Some (VARINT v, r)
   else if wire_type =? 1 then
     '(v, r) ← ReadLittleEndian 8 (r0 ++ t); Some (FIXED64 v, r)
   else if wire_type =? 2 then
     '(len, r) ← ReadVarint32 (r0 ++ t);
     '(payload, r') ← ReadBytes len r; Some (LENGTH_DELIMITED payload, r')
   else if wire_type =? 3 then
     '(_, r) ← ReadFields fuel' (Some number) (r0 ++ t); Some (GROUP, r)
   else if wire_type =? 5 then
     '(v, r) ← ReadLittleEndian 4 (r0 ++ t); Some (FIXED32 v, r)
   else None) = Some (v, r1 ++ t).
Proof.
  intros IH Eval.
  destruct (wire_type =? 0).
  { destruct (ReadVarint64 r0) as [[w r]|] eqn:E; [|discriminate].
    injection Eval as <- <-. rewrite (ReadVarint64_app _ _ _ t E). reflexivity. }
  destruct (wire_type =? 1).
  { destruct (ReadLittleEndian 8 r0) as [[w r]|] eqn:E; [|discriminate].
    injection Eval as <- <-. rewrite (ReadLittleEndian_app _ _ _ _ t E). reflexivity. }
  destruct (wire_type =? 2).
  { destruct (ReadVarint32 r0) as [[len r]|] eqn:E; [|discriminate].
    cbn [mbind option_bind] in Eval.
    destruct (ReadBytes len r) as [[p r']|] eqn:E'; [|discriminate].
    injection Eval as <- <-. rewrite (ReadVarint32_app _ _ _ t E).
    cbn [mbind option_bind]. rewrite (ReadBytes_app _ _ _ _ t E'). reflexivity. }
  destruct (wire_type =? 3).
  { destruct (ReadFields fuel _ r0) as [[gfs r]|] eqn:E; [|discriminate].
    injection Eval as <- <-. rewrite (IH _ _ _ E eq_refl). reflexivity. }
  destruct (wire_type =? 5); [|discriminate].
  destruct (ReadLittleEndian 4 r0) as [[w r]|] eqn:E; [|discriminate].
  injection Eval as <- <-. rewrite (ReadLittleEndian_app _ _ _ _ t E). reflexivity.
Qed.

(** Reading the fields of an input that is followed by more bytes: inside a
    group the bytes are left; at the top level their fields follow. *)
Lemma ReadFields_app fuel : ∀ group bs fs r t fuel',
  (length bs < fuel)%nat →
  ReadFields fuel group bs = Some (fs, r) →
  (length (bs ++ t) < fuel')%nat →
  ReadFields fuel' group (bs ++ t) =
  match group with
  | Some _ => Some (fs, r ++ t)
  | None => '(fs2, r2) ← ReadFields fuel' None t; Some (fs ++ fs2, r2)
  end.
Proof.
  induction fuel as [|fuel IH]; intros group bs fs r t fuel' Hf Hread Hf'; [lia|].
  destruct bs as [|b bs].
  { simpl in Hread. destruct group; [discriminate|]. injection Hread as <- <-.
    cbn [app]. destruct (ReadFields fuel' None t) as [[fs2 r2]|]; reflexivity. }
  destruct fuel' as [|fuel']; [lia|].
  cbn [app]. rewrite ReadFields_S in Hread. rewrite ReadFields_S.
  change (b :: bs ++ t) with ((b :: bs) ++ t).
  destruct (ReadVarint32 (b :: bs)) as [[tag r0]|] eqn:Etag; [|discriminate].
  rewrite (ReadVarint32_app _ _ _ t Etag).
  apply ReadVarint32_length in Etag. rewrite length_app in Hf'.
  cbn [length] in Etag, Hf, Hf'.
  cbn [mbind option_bind] in Hread |- *. cbv zeta in Hread |- *.
  destruct (tag =? 0); [discriminate|].
  destruct (Z.land tag 7 =? 4).
  { destruct group as [g|]; case_decide; try discriminate.
    injection Hread as <- <-. reflexivity. }
  match type of Hread with
  | mbind _ ?val = _ => destruct val as [[v r1]|] eqn:Eval; [|discriminate]
  end.
  pose proof (read_value_length _ _ _ _ _ _ (ReadFields_length fuel) Eval) as Hr1.
  apply (read_value_app fuel fuel' _ _ _ _ _ t) in Eval.
  2:{ intros bs0 fs0 r' Hg ->.
      apply (IH (Some (Z.shiftr tag 3)) bs0 fs0 r' t fuel'); [lia|exact Hg|].
      rewrite length_app. lia. }
  rewrite Eval. cbn [mbind option_bind] in Hread |- *.
  destruct (ReadFields fuel group r1) as [[fs' r2]|] eqn:E; [|discriminate].
  injection Hread as <- <-.
  rewrite (IH group r1 fs' r2 t fuel'); [|lia|exact E|rewrite length_app; lia].
  destruct group as [g|]; [reflexivity|].
  rewrite (ReadFields_fuel (S fuel') fuel' None t) by lia.
  destruct (ReadFields fuel' None t) as [[fs2 r2']|]; reflexivity.
Qed.

(** The fields of two inputs put one after the other are the fields of the
    first followed by the fields of the second. *)
Lemma ReadMessage_app bs1 bs2 fs1 :
  ReadMessage bs1 = Some fs1 →
  ReadMessage (bs1 ++ bs2) = fs2 ← ReadMessage bs2; Some (fs1 ++ fs2).
Proof.
  unfold ReadMessage at 1.
  destruct (ReadFields _ None bs1) as [[fs r]|] eqn:E; [|discriminate].
  intros [= <-].
  rewrite (ReadMessage_fuel (S (length (bs1 ++ bs2))) (bs1 ++ bs2)) by lia.
  rewrite (ReadFields_app (S (length bs1)) None bs1 fs r bs2
             (S (length (bs1 ++ bs2))) ltac:(lia) E ltac:(lia)).
  rewrite (ReadMessage_fuel (S (length (bs1 ++ bs2))) bs2)
    by (rewrite length_app; lia).
  destruct (ReadFields _ None bs2) as [[fs2 r2]|]; reflexivity.
Qed.

Lemma MergeFields_app {M : Type} (merge : M → Field → option M) fs1 : ∀ m fs2,
  MergeFields merge m (fs1 ++ fs2) = m1 ← MergeFields merge m fs1; MergeFields merge m1 fs2.
Proof.
  induction fs1 as [|f fs1 IH]; intros m fs2; [reflexivity|].
  cbn [app MergeFields]. destruct (merge m f) as [m1|]; [|reflexivity].
  cbn [mbind option_bind]. apply IH.
Qed.

(** A tag holds the number of a field and its wire type. *)
Lemma tag_value n wire_type :
  0 ≤ wire_type < 8 → Z.lor (Z.shiftl n 3) wire_type = 8 * n + wire_type.
Proof.
  intros Hw.
  assert (Z.land (Z.shiftl n 3) wire_type = 0) as Hland.
  { apply Z.bits_inj'. intros i Hi. rewrite Z.land_spec, Z.bits_0.
    destruct (Z.lt_ge_cases i 3) as [Hlt|Hge].
    - rewrite (Z.shiftl_spec_low n 3 i Hlt). reflexivity.
    - destruct (Z.eq_dec wire_type 0) as [->|Hw0];
        [rewrite Z.bits_0; apply andb_false_r|].
      rewrite (Z.bits_above_log2 wire_type i); [apply andb_false_r|lia|].
      apply Z.lt_le_trans with 3; [apply Z.log2_lt_pow2; lia|lia]. }
  rewrite <- Z.lxor_lor by exact Hland.
  rewrite <- Z.add_nocarry_lxor by exact Hland.
  rewrite Z.shiftl_mul_pow2 by lia. lia.
Qed.

Lemma ReadVarint32_WriteTag n wire_type rest :
  0 ≤ n < 2 ^ 29 → 0 ≤ wire_type < 8 →
  ReadVarint32 (WriteTag n wire_type ++ rest) = Some (8 * n + wire_type, rest).
Proof.
  intros Hn Hw. unfold ReadVarint32, WriteTag.
  rewrite ReadVarint64_WriteVarint64. cbn [mbind option_bind].
  rewrite tag_value by exact Hw.
  rewrite (Z.mod_small _ (2 ^ 64)), (Z.mod_small _ (2 ^ 32)) by lia. reflexivity.
Qed.

Lemma tag_number n wire_type :
  0 ≤ wire_type < 8 → Z.shiftr (8 * n + wire_type) 3 = n.
Proof.
  intros Hw. rewrite Z.shiftr_div_pow2 by lia.
  symmetry. apply Z.div_unique with wire_type; lia.
Qed.

Lemma tag_wire_type n wire_type :
  0 ≤ wire_type < 8 → Z.land (8 * n + wire_type) 7 = wire_type.
Proof.
  intros Hw. change 7 with (Z.ones 3). rewrite Z.land_ones by lia.
  symmetry. apply Z.mod_unique with n; lia.
Qed.

Lemma WriteTag_cons n wire_type : ∃ b bs, WriteTag n wire_type = b :: bs.
Proof.
  pose proof (WriteVarint64_length (Z.lor (Z.shiftl n 3) wire_type)) as Hl.
  unfold WriteTag. destruct (WriteVarint64 _) as [|b bs]; [simpl in Hl; lia|eauto].
Qed.

(** One step of [ReadFields] on a varint field that was written, and on a
    length-delimited field that was written. *)
Lemma ReadFields_WriteVarintField fuel n v rest :
  1 ≤ n < 2 ^ 29 →
  ReadFields (S fuel) None (WriteVarintField n v ++ rest) =
  '(fs, r) ← ReadFields fuel None rest; Some ((n, VARINT (v mod 2 ^ 64)) :: fs, r).
Proof.
  intros Hn. unfold WriteVarintField.
  destruct (WriteTag_cons n 0) as (b & bs & Etag).
  rewrite <- !app_assoc. rewrite Etag at 1. cbn [app]. rewrite ReadFields_S.
  change (b :: bs ++ ?l) with ((b :: bs) ++ l). rewrite <- Etag.
  rewrite ReadVarint32_WriteTag by lia. cbn [mbind option_bind]. cbv zeta.
  rewrite tag_number, tag_wire_type by lia.
  destruct (Z.eqb_spec (8 * n + 0) 0); [lia|].
  change (0 =? 4) with false. change (0 =? 0) with true. cbv iota.
  rewrite ReadVarint64_WriteVarint64. reflexivity.
Qed.

Lemma ReadFields_WriteBytesField fuel n payload rest :
  1 ≤ n < 2 ^ 29 → Z.of_nat (length payload) < 2 ^ 31 →
  ReadFields (S fuel) None (WriteBytesField n payload ++ rest) =
  '(fs, r) ← ReadFields fuel None rest; Some ((n, LENGTH_DELIMITED payload) :: fs, r).
Proof.
  intros Hn Hlen. unfold WriteBytesField.
  destruct (WriteTag_cons n 2) as (b & bs & Etag).
  rewrite <- !app_assoc. rewrite Etag at 1. cbn [app]. rewrite ReadFields_S.
  change (b :: bs ++ ?l) with ((b :: bs) ++ l). rewrite <- Etag.
  rewrite ReadVarint32_WriteTag by lia. cbn [mbind option_bind]. cbv zeta.
  rewrite tag_number, tag_wire_type by lia.
  destruct (Z.eqb_spec (8 * n + 2) 0); [lia|].
  change (2 =? 4) with false. change (2 =? 0) with false.
  change (2 =? 1) with false. change (2 =? 2) with true. cbv iota.
  unfold ReadVarint32. rewrite ReadVarint64_WriteVarint64. cbn [mbind option_bind].
  rewrite (Z.mod_small _ (2 ^ 64)), (Z.mod_small _ (2 ^ 32)) by lia.
  unfold ReadBytes.
  destruct (Z.leb_spec (2 ^ 31) (Z.of_nat (length payload))); [lia|].
  destruct (Z.ltb_spec (Z.of_nat (length (payload ++ rest)))
              (Z.of_nat (length payload))) as [Hlt|_];
    [rewrite length_app in Hlt; lia|].
  cbn [orb mbind option_bind]. rewrite Nat2Z.id, take_app_length, drop_app_length.
  reflexivity.
Qed.

Lemma ReadMessage_WriteVarintField n v :
  1 ≤ n < 2 ^ 29 → ReadMessage (WriteVarintField n v) = Some [(n, VARINT (v mod 2 ^ 64))].
Proof.
  intros Hn. unfold ReadMessage.
  rewrite <- (app_nil_r (WriteVarintField n v)) at 2.
  rewrite ReadFields_WriteVarintField by exact Hn.
  destruct (length (WriteVarintField n v)) eqn:El.
  - unfold WriteVarintField in El. rewrite length_app in El.
    pose proof (WriteVarint64_length v). lia.
  - reflexivity.
Qed.

Lemma ReadMessage_WriteBytesField n payload :
  1 ≤ n < 2 ^ 29 → Z.of_nat (length payload) < 2 ^ 31 →
  ReadMessage (WriteBytesField n payload) = Some [(n, LENGTH_DELIMITED payload)].
Proof.
  intros Hn Hlen. unfold ReadMessage.
  rewrite <- (app_nil_r (WriteBytesField n payload)) at 2.
  rewrite ReadFields_WriteBytesField by assumption.
  destruct (length (WriteBytesField n payload)) eqn:El.
  - unfold WriteBytesField, WriteTag in El. rewrite length_app in El.
    pose proof (WriteVarint64_length (Z.lor (Z.shiftl n 3) 2)). lia.
  - reflexivity.
Qed.

(** The fields of a field that may be there. *)
Lemma ReadMessage_WriteOptional {A : Type} (write : A → list byte)
    (field : A → Field) (o : option A) :
  (∀ a, o = Some a → ReadMessage (write a) = Some [field a]) →
  ReadMessage (WriteOptional write o) = Some (from_option (λ a, [field a]) [] o).
Proof.
  intros Hw. destruct o as [a|]; simpl; [apply Hw; reflexivity|reflexivity].
Qed.

Lemma int64_of_varint_mod v :
  - 2 ^ 63 ≤ v < 2 ^ 63 → int64_of_varint (v mod 2 ^ 64) = v.
Proof.
  intros Hv. unfold int64_of_varint. rewrite Z.mod_mod by lia. cbv zeta.
  destruct (Z.lt_ge_cases v 0).
  - replace (v mod 2 ^ 64) with (v + 2 ^ 64)
      by (apply Z.mod_unique with (-1); lia).
    destruct (Z.ltb_spec (v + 2 ^ 64) (2 ^ 63)); lia.
  - rewrite Z.mod_small by lia. destruct (Z.ltb_spec v (2 ^ 63)); lia.
Qed.

Lemma int32_of_varint_mod v :
  - 2 ^ 31 ≤ v < 2 ^ 31 → int32_of_varint (v mod 2 ^ 64) = v.
Proof.
  intros Hv. unfold int32_of_varint.
  assert ((v mod 2 ^ 64) mod 2 ^ 32 = v mod 2 ^ 32) as ->.
  { apply Z.mod_mod_divide. exists (2 ^ 32). reflexivity. }
  cbv zeta. destruct (Z.lt_ge_cases v 0).
  - replace (v mod 2 ^ 32) with (v + 2 ^ 32)
      by (apply Z.mod_unique with (-1); lia).
    destruct (Z.ltb_spec (v + 2 ^ 32) (2 ^ 31)); lia.
  - rewrite Z.mod_small by lia. destruct (Z.ltb_spec v (2 ^ 31)); lia.
Qed.

(** ** cfile.proto: what is serialized is parsed back *)

Lemma BlockPointerPB_SerializeToString_length m :
  (length (BlockPointerPB.SerializeToString m) ≤ 22)%nat.
Proof.
  unfold BlockPointerPB.SerializeToString, WriteOptional, WriteVarintField, WriteTag.
  rewrite length_app.
  destruct (BlockPointerPB.offset_ m) as [off|], (BlockPointerPB.size_ m) as [sz|];
    cbn [from_option]; rewrite ?length_app; cbn [length];
    repeat match goal with
           | |- context [length (WriteVarint64 ?v)] =>
               lazymatch goal with
               | H : (1 ≤ length (WriteVarint64 v) ≤ 10)%nat |- _ => fail
               | _ => pose proof (WriteVarint64_length v)
               end
           end;
    change (length (WriteVarint64 (Z.lor (Z.shiftl 1 3) 0))) with 1%nat in *;
    change (length (WriteVarint64 (Z.lor (Z.shiftl 2 3) 0))) with 1%nat in *; lia.
Qed.

Lemma BlockPointerPB_partial_round_trip m :
  BlockPointerPB_ranges m →
  BlockPointerPB.MergePartialFromString BlockPointerPB.Clear
    (BlockPointerPB.SerializeToString m) = Some m.
Proof.
  intros [Ho Hs]. unfold BlockPointerPB.MergePartialFromString,
    BlockPointerPB.SerializeToString.
  rewrite (ReadMessage_app _ _ (from_option (λ v, [(1, VARINT (v mod 2 ^ 64))]) []
                                  (BlockPointerPB.offset_ m)))
    by (apply (ReadMessage_WriteOptional _ (λ v, (1, VARINT (v mod 2 ^ 64))));
        intros; apply ReadMessage_WriteVarintField; lia).
  rewrite (ReadMessage_WriteOptional _ (λ v, (2, VARINT (v mod 2 ^ 64))))
    by (intros; apply ReadMessage_WriteVarintField; lia).
  destruct m as [[off|] [sz|]]; cbn in Ho, Hs |- *;
    rewrite ?int64_of_varint_mod, ?int32_of_varint_mod by assumption; reflexivity.
Qed.

(** X1: a block pointer that has its offset, a signed 64-bit integer, and
    its size, a signed 32-bit integer, is parsed back from its
    serialization. *)
Theorem BlockPointerPB_round_trip m :
  BlockPointerPB_ranges m → BlockPointerPB.IsInitialized m = true →
  BlockPointerPB.ParseFromString (BlockPointerPB.SerializeToString m) = Some m.
Proof.
  intros Hr Hi. unfold BlockPointerPB.ParseFromString.
  rewrite BlockPointerPB_partial_round_trip by exact Hr.
  cbn [mbind option_bind]. rewrite Hi. reflexivity.
Qed.

Lemma BTreeInfoPB_partial_round_trip m :
  BTreeInfoPB_ranges m →
  BTreeInfoPB.MergePartialFromString BTreeInfoPB.Clear
    (BTreeInfoPB.SerializeToString m) = Some m.
Proof.
  intros Hr. unfold BTreeInfoPB.MergePartialFromString, BTreeInfoPB.SerializeToString.
  destruct m as [[ptr|]]; [|reflexivity].
  unfold BTreeInfoPB_ranges in Hr.
  cbn [BTreeInfoPB.root_block_ WriteOptional from_option] in Hr |- *.
  rewrite ReadMessage_WriteBytesField;
    [|lia|pose proof (BlockPointerPB_SerializeToString_length ptr);
          unfold short; lia].
  cbn [mbind option_bind MergeFields BTreeInfoPB.MergeField Z.eqb Pos.eqb].
  change (BTreeInfoPB.root_block BTreeInfoPB.Clear) with BlockPointerPB.Clear.
  rewrite BlockPointerPB_partial_round_trip by exact Hr. reflexivity.
Qed.

(** X2: a B-tree handle whose root block has its offset and its size is
    parsed back from its serialization. *)
Theorem BTreeInfoPB_round_trip m :
  BTreeInfoPB_ranges m → BTreeInfoPB.IsInitialized m = true →
  BTreeInfoPB.ParseFromString (BTreeInfoPB.SerializeToString m) = Some m.
Proof.
  intros Hr Hi. unfold BTreeInfoPB.ParseFromString.
  rewrite BTreeInfoPB_partial_round_trip by exact Hr.
  cbn [mbind option_bind]. rewrite Hi. reflexivity.
Qed.

Lemma BTreeInfoPB_SerializeToString_length m :
  (length (BTreeInfoPB.SerializeToString m) ≤ 33)%nat.
Proof.
  unfold BTreeInfoPB.SerializeToString, WriteOptional, WriteBytesField, WriteTag.
  destruct (BTreeInfoPB.root_block_ m) as [ptr|]; cbn [from_option length]; [|lia].
  rewrite !length_app.
  pose proof (BlockPointerPB_SerializeToString_length ptr).
  pose proof (WriteVarint64_length
                (Z.of_nat (length (BlockPointerPB.SerializeToString ptr)))).
  change (length (WriteVarint64 (Z.lor (Z.shiftl 1 3) 2))) with 1%nat. lia.
Qed.

Lemma BlockType_of_number_number ty :
  IndexBlockTrailerPB.BlockType_of_number (IndexBlockTrailerPB.BlockType_number ty)
  = Some ty.
Proof. destruct ty; reflexivity. Qed.

Lemma IndexBlockTrailerPB_partial_round_trip m :
  IndexBlockTrailerPB_ranges m →
  IndexBlockTrailerPB.MergePartialFromString IndexBlockTrailerPB.Clear
    (IndexBlockTrailerPB.SerializeToString m) = Some m.
Proof.
  intros Hn. unfold IndexBlockTrailerPB.MergePartialFromString,
    IndexBlockTrailerPB.SerializeToString.
  rewrite (ReadMessage_app _ _ (from_option (λ v, [(1, VARINT (v mod 2 ^ 64))]) []
                                  (IndexBlockTrailerPB.num_entries_ m)))
    by (apply (ReadMessage_WriteOptional _ (λ v, (1, VARINT (v mod 2 ^ 64))));
        intros; apply ReadMessage_WriteVarintField; lia).
  rewrite (ReadMessage_WriteOptional _
             (λ ty, (2, VARINT (IndexBlockTrailerPB.BlockType_number ty mod 2 ^ 64))))
    by (intros; apply ReadMessage_WriteVarintField; lia).
  assert (∀ ty, int32_of_varint (IndexBlockTrailerPB.BlockType_number ty mod 2 ^ 64)
                = IndexBlockTrailerPB.BlockType_number ty) as Hty.
  { intros ty. apply int32_of_varint_mod. destruct ty; simpl; lia. }
  destruct m as [[n|] [ty|]]; cbn in Hn |- *;
    rewrite ?Hty, ?BlockType_of_number_number, ?int32_of_varint_mod by assumption;
    reflexivity.
Qed.

(** X3: an index block trailer that has its number of entries, a signed
    32-bit integer, and its type, any of the three declared values, is parsed
    back from its serialization. *)
Theorem IndexBlockTrailerPB_round_trip m :
  IndexBlockTrailerPB_ranges m → IndexBlockTrailerPB.IsInitialized m = true →
  IndexBlockTrailerPB.ParseFromString (IndexBlockTrailerPB.SerializeToString m) = Some m.
Proof.
  intros Hr Hi. unfold IndexBlockTrailerPB.ParseFromString.
  rewrite IndexBlockTrailerPB_partial_round_trip by exact Hr.
  cbn [mbind option_bind]. rewrite Hi. reflexivity.
Qed.

(** X4: a bloom block header that has its number of hash functions, a
    signed 32-bit integer, is parsed back from its serialization. *)
Theorem BloomBlockHeaderPB_round_trip m :
  BloomBlockHeaderPB_ranges m → BloomBlockHeaderPB.IsInitialized m = true →
  BloomBlockHeaderPB.ParseFromString (BloomBlockHeaderPB.SerializeToString m) = Some m.
Proof.
  intros Hr Hi. unfold BloomBlockHeaderPB.ParseFromString,
    BloomBlockHeaderPB.MergePartialFromString, BloomBlockHeaderPB.SerializeToString.
  rewrite (ReadMessage_WriteOptional _ (λ v, (1, VARINT (v mod 2 ^ 64))))
    by (intros; apply ReadMessage_WriteVarintField; lia).
  destruct m as [[n|]]; cbn in Hr, Hi |- *; [|discriminate].
  rewrite int32_of_varint_mod by exact Hr. reflexivity.
Qed.

Lemma FileMetadataPairPB_partial_round_trip m :
  FileMetadataPairPB_ranges m →
  FileMetadataPairPB.MergePartialFromString FileMetadataPairPB.Clear
    (FileMetadataPairPB.SerializeToString m) = Some m.
Proof.
  intros (Hk & Hv & _). unfold FileMetadataPairPB.MergePartialFromString,
    FileMetadataPairPB.SerializeToString.
  rewrite (ReadMessage_app _ _ (from_option (λ p, [(1, LENGTH_DELIMITED p)]) []
                                  (FileMetadataPairPB.key_ m))).
  2:{ apply (ReadMessage_WriteOptional _ (λ p, (1, LENGTH_DELIMITED p))).
      intros p Hp. rewrite Hp in Hk. apply ReadMessage_WriteBytesField; [lia|exact Hk]. }
  rewrite (ReadMessage_WriteOptional _ (λ p, (2, LENGTH_DELIMITED p))).
  2:{ intros p Hp. rewrite Hp in Hv. apply ReadMessage_WriteBytesField; [lia|exact Hv]. }
  destruct m as [[k|] [v|]]; reflexivity.
Qed.

(** X5: a metadata pair that has its key and its value is parsed back from
    its serialization, whatever bytes they hold. *)
Theorem FileMetadataPairPB_round_trip m :
  FileMetadataPairPB_ranges m → FileMetadataPairPB.IsInitialized m = true →
  FileMetadataPairPB.ParseFromString (FileMetadataPairPB.SerializeToString m) = Some m.
Proof.
  intros Hr Hi. unfold FileMetadataPairPB.ParseFromString.
  rewrite FileMetadataPairPB_partial_round_trip by exact Hr.
  cbn [mbind option_bind]. rewrite Hi. reflexivity.
Qed.

Lemma ReadMessage_app_fields bs1 bs2 fs1 fs2 :
  ReadMessage bs1 = Some fs1 → ReadMessage bs2 = Some fs2 →
  ReadMessage (bs1 ++ bs2) = Some (fs1 ++ fs2).
Proof. intros H1 H2. rewrite (ReadMessage_app _ _ _ H1), H2. reflexivity. Qed.

Lemma ReadMessage_nil : ReadMessage [] = Some [].
Proof. reflexivity. Qed.

Lemma ReadMessage_concat {A : Type} (write : A → list byte) (field : A → Field)
    (l : list A) :
  Forall (λ a, ReadMessage (write a) = Some [field a]) l →
  ReadMessage (concat (write <$> l)) = Some (field <$> l).
Proof.
  induction 1 as [|a l Ha _ IH]; [reflexivity|].
  rewrite fmap_cons. cbn [concat].
  rewrite (ReadMessage_app_fields _ _ _ _ Ha IH). reflexivity.
Qed.

Lemma FileMetadataPairPB_fields n (pairs : list FileMetadataPairPB.t) :
  1 ≤ n < 2 ^ 29 →
  Forall FileMetadataPairPB_ranges pairs →
  ReadMessage
    (concat ((λ pair, WriteBytesField n (FileMetadataPairPB.SerializeToString pair))
               <$> pairs))
  = Some ((λ pair, (n, LENGTH_DELIMITED (FileMetadataPairPB.SerializeToString pair)))
            <$> pairs).
Proof.
  intros Hn Hr.
  apply (ReadMessage_concat _
           (λ pair, (n, LENGTH_DELIMITED (FileMetadataPairPB.SerializeToString pair)))).
  eapply Forall_impl; [exact Hr|]. intros pair (_ & _ & Hs).
  apply ReadMessage_WriteBytesField; assumption.
Qed.

Lemma CFileHeaderPB_merge_metadata pairs : ∀ m,
  Forall FileMetadataPairPB_ranges pairs →
  MergeFields CFileHeaderPB.MergeField m
    ((λ pair, (3, LENGTH_DELIMITED (FileMetadataPairPB.SerializeToString pair))) <$> pairs)
  = Some (CFileHeaderPB.mk (CFileHeaderPB.major_version_ m)
            (CFileHeaderPB.minor_version_ m) (CFileHeaderPB.metadata_ m ++ pairs)).
Proof.
  induction pairs as [|pair pairs IH]; intros m Hr.
  - rewrite app_nil_r. destruct m; reflexivity.
  - apply Forall_cons in Hr as [Hp Hr]. rewrite fmap_cons.
    cbn [MergeFields CFileHeaderPB.MergeField Z.eqb Pos.eqb].
    rewrite FileMetadataPairPB_partial_round_trip by exact Hp.
    cbn [mbind option_bind]. rewrite (IH _ Hr).
    cbn [CFileHeaderPB.major_version_ CFileHeaderPB.minor_version_
           CFileHeaderPB.metadata_].
    rewrite <- app_assoc. reflexivity.
Qed.

Lemma CFileHeaderPB_partial_round_trip m :
  CFileHeaderPB_ranges m →
  CFileHeaderPB.MergePartialFromString CFileHeaderPB.Clear
    (CFileHeaderPB.SerializeToString m) = Some m.
Proof.
  intros (Hmaj & Hmin & Hmd). unfold CFileHeaderPB.MergePartialFromString,
    CFileHeaderPB.SerializeToString.
  rewrite (ReadMessage_app_fields _ _
             (from_option (λ v, [(1, VARINT (v mod 2 ^ 64))]) []
                (CFileHeaderPB.major_version_ m))
             (from_option (λ v, [(2, VARINT (v mod 2 ^ 64))]) []
                (CFileHeaderPB.minor_version_ m)
              ++ ((λ pair, (3, LENGTH_DELIMITED (FileMetadataPairPB.SerializeToString pair)))
                    <$> CFileHeaderPB.metadata_ m))).
  2:{ apply (ReadMessage_WriteOptional _ (λ v, (1, VARINT (v mod 2 ^ 64)))).
      intros. apply ReadMessage_WriteVarintField. lia. }
  2:{ apply ReadMessage_app_fields.
      - apply (ReadMessage_WriteOptional _ (λ v, (2, VARINT (v mod 2 ^ 64)))).
        intros. apply ReadMessage_WriteVarintField. lia.
      - apply FileMetadataPairPB_fields; [lia|exact Hmd]. }
  cbn [mbind option_bind]. rewrite app_assoc, MergeFields_app.
  destruct m as [[major|] [minor|] pairs];
    cbn in Hmaj, Hmin, Hmd |- *;
    rewrite ?int32_of_varint_mod by assumption;
    rewrite CFileHeaderPB_merge_metadata by exact Hmd; reflexivity.
Qed.

(** X6: a header that has its two version numbers, signed 32-bit integers,
    and any list of metadata pairs that have their key and their value, is
    parsed back from its serialization, the pairs in their order. *)
Theorem CFileHeaderPB_round_trip m :
  CFileHeaderPB_ranges m → CFileHeaderPB.IsInitialized m = true →
  CFileHeaderPB.ParseFromString (CFileHeaderPB.SerializeToString m) = Some m.
Proof.
  intros Hr Hi. unfold CFileHeaderPB.ParseFromString.
  rewrite CFileHeaderPB_partial_round_trip by exact Hr.
  cbn [mbind option_bind]. rewrite Hi. reflexivity.
Qed.

Lemma MergeFields_optional {M A : Type} (merge : M → Field → option M)
    (field : A → Field) (set : M → A → M) (o : option A) (m : M) :
  (∀ a, o = Some a → merge m (field a) = Some (set m a)) →
  MergeFields merge m (from_option (λ a, [field a]) [] o)
  = Some (from_option (set m) m o).
Proof.
  intros Hm. destruct o as [a|]; cbn [from_option MergeFields]; [|reflexivity].
  rewrite (Hm a eq_refl). reflexivity.
Qed.

Section FooterRoundTrip.
Context `{CommonProto}.

Lemma CFileFooterPB_merge_metadata pairs : ∀ m,
  Forall FileMetadataPairPB_ranges pairs →
  MergeFields CFileFooterPB.MergeField m
    ((λ pair, (7, LENGTH_DELIMITED (FileMetadataPairPB.SerializeToString pair))) <$> pairs)
  = Some (foldl CFileFooterPB.add_metadata m pairs).
Proof.
  induction pairs as [|pair pairs IH]; intros m Hr; [reflexivity|].
  apply Forall_cons in Hr as [Hp Hr]. rewrite fmap_cons.
  cbn [MergeFields CFileFooterPB.MergeField Z.eqb Pos.eqb].
  rewrite FileMetadataPairPB_partial_round_trip by exact Hp.
  cbn [mbind option_bind foldl]. apply IH, Hr.
Qed.

Lemma foldl_add_metadata pairs : ∀ m,
  foldl CFileFooterPB.add_metadata m pairs
  = CFileFooterPB.mk (CFileFooterPB.data_type_ m) (CFileFooterPB.encoding_ m)
      (CFileFooterPB.num_values_ m) (CFileFooterPB.posidx_info_ m)
      (CFileFooterPB.validx_info_ m) (CFileFooterPB.compression_ m)
      (CFileFooterPB.metadata_ m ++ pairs) (CFileFooterPB.is_type_nullable_ m)
      (CFileFooterPB.dict_block_ptr_ m).
Proof.
  induction pairs as [|pair pairs IH]; intros m; cbn [foldl].
  - rewrite app_nil_r. destruct m; reflexivity.
  - rewrite IH. unfold CFileFooterPB.add_metadata. cbn. rewrite <- app_assoc.
    reflexivity.
Qed.

Lemma set_enum_valid valid set m v :
  enum valid v →
  CFileFooterPB.set_enum valid set m (v mod 2 ^ 64) = set m v.
Proof.
  intros [Hr Hv]. unfold CFileFooterPB.set_enum.
  rewrite int32_of_varint_mod by exact Hr. rewrite Hv. reflexivity.
Qed.

Lemma CFileFooterPB_partial_round_trip m :
  CFileFooterPB_ranges m →
  CFileFooterPB.MergePartialFromString CFileFooterPB.Clear
    (CFileFooterPB.SerializeToString m) = Some m.
Proof.
  intros (Hd & He & Hn & Hp & Hv & Hc & Hmd & Hdp).
  destruct m as [d e n p v c md b dp].
  cbn [CFileFooterPB.data_type_ CFileFooterPB.encoding_ CFileFooterPB.num_values_
         CFileFooterPB.posidx_info_ CFileFooterPB.validx_info_
         CFileFooterPB.compression_ CFileFooterPB.metadata_
         CFileFooterPB.is_type_nullable_ CFileFooterPB.dict_block_ptr_] in *.
  unfold CFileFooterPB.MergePartialFromString, CFileFooterPB.SerializeToString.
  cbn [CFileFooterPB.data_type_ CFileFooterPB.encoding_ CFileFooterPB.num_values_
         CFileFooterPB.posidx_info_ CFileFooterPB.validx_info_
         CFileFooterPB.compression_ CFileFooterPB.metadata_
         CFileFooterPB.is_type_nullable_ CFileFooterPB.dict_block_ptr_].
  assert (∀ info, short (BTreeInfoPB.SerializeToString info)) as Hinfo.
  { intros info. pose proof (BTreeInfoPB_SerializeToString_length info).
    unfold short. lia. }
  assert (∀ ptr, short (BlockPointerPB.SerializeToString ptr)) as Hptr.
  { intros ptr. pose proof (BlockPointerPB_SerializeToString_length ptr).
    unfold short. lia. }
  rewrite (ReadMessage_app_fields _ _
    (from_option (λ a, [(λ x, (1, VARINT (x mod 2 ^ 64))) a]) [] d)
    (from_option (λ a, [(λ x, (2, VARINT (x mod 2 ^ 64))) a]) [] e
     ++ from_option (λ a, [(λ x, (3, VARINT (x mod 2 ^ 64))) a]) [] n
     ++ from_option
          (λ a, [(λ x, (4, LENGTH_DELIMITED (BTreeInfoPB.SerializeToString x))) a]) [] p
     ++ from_option
          (λ a, [(λ x, (5, LENGTH_DELIMITED (BTreeInfoPB.SerializeToString x))) a]) [] v
     ++ from_option (λ a, [(λ x, (6, VARINT (x mod 2 ^ 64))) a]) [] c
     ++ ((λ pair, (7, LENGTH_DELIMITED (FileMetadataPairPB.SerializeToString pair)))
           <$> md)
     ++ from_option
          (λ a, [(λ x : bool, (8, VARINT ((if x then 1 else 0) mod 2 ^ 64))) a]) [] b
     ++ from_option
          (λ a, [(λ x, (9, LENGTH_DELIMITED (BlockPointerPB.SerializeToString x))) a])
          [] dp)).
  2:{ apply ReadMessage_WriteOptional. intros. apply ReadMessage_WriteVarintField. lia. }
  2:{ repeat apply ReadMessage_app_fields.
      - apply ReadMessage_WriteOptional. intros.
        apply ReadMessage_WriteVarintField. lia.
      - apply ReadMessage_WriteOptional. intros.
        apply ReadMessage_WriteVarintField. lia.
      - apply ReadMessage_WriteOptional. intros.
        apply ReadMessage_WriteBytesField; [lia|apply Hinfo].
      - apply ReadMessage_WriteOptional. intros.
        apply ReadMessage_WriteBytesField; [lia|apply Hinfo].
      - apply ReadMessage_WriteOptional. intros.
        apply ReadMessage_WriteVarintField. lia.
      - apply FileMetadataPairPB_fields; [lia|exact Hmd].
      - apply ReadMessage_WriteOptional. intros.
        apply ReadMessage_WriteVarintField. lia.
      - apply ReadMessage_WriteOptional. intros.
        apply ReadMessage_WriteBytesField; [lia|apply Hptr]. }
  cbn [mbind option_bind].
  rewrite MergeFields_app,
    (MergeFields_optional _ (λ x, (1, VARINT (x mod 2 ^ 64))) CFileFooterPB.set_data_type).
  2:{ intros a ->. cbn [CFileFooterPB.MergeField Z.eqb Pos.eqb].
      rewrite set_enum_valid by exact Hd. reflexivity. }
  cbn [mbind option_bind].
  rewrite MergeFields_app,
    (MergeFields_optional _ (λ x, (2, VARINT (x mod 2 ^ 64))) CFileFooterPB.set_encoding).
  2:{ intros a ->. cbn [CFileFooterPB.MergeField Z.eqb Pos.eqb].
      rewrite set_enum_valid by exact He. reflexivity. }
  cbn [mbind option_bind].
  rewrite MergeFields_app,
    (MergeFields_optional _ (λ x, (3, VARINT (x mod 2 ^ 64))) CFileFooterPB.set_num_values).
  2:{ intros a ->. cbn [CFileFooterPB.MergeField Z.eqb Pos.eqb].
      rewrite int64_of_varint_mod by exact Hn. reflexivity. }
  cbn [mbind option_bind].
  rewrite MergeFields_app,
    (MergeFields_optional _
       (λ x, (4, LENGTH_DELIMITED (BTreeInfoPB.SerializeToString x)))
       CFileFooterPB.set_posidx_info).
  2:{ intros a ->. cbn [CFileFooterPB.MergeField Z.eqb Pos.eqb].
      replace (CFileFooterPB.posidx_info _) with BTreeInfoPB.Clear
        by (destruct d, e, n; reflexivity).
      rewrite BTreeInfoPB_partial_round_trip by exact Hp. reflexivity. }
  cbn [mbind option_bind].
  rewrite MergeFields_app,
    (MergeFields_optional _
       (λ x, (5, LENGTH_DELIMITED (BTreeInfoPB.SerializeToString x)))
       CFileFooterPB.set_validx_info).
  2:{ intros a ->. cbn [CFileFooterPB.MergeField Z.eqb Pos.eqb].
      replace (CFileFooterPB.validx_info _) with BTreeInfoPB.Clear
        by (destruct d, e, n, p; reflexivity).
      rewrite BTreeInfoPB_partial_round_trip by exact Hv. reflexivity. }
  cbn [mbind option_bind].
  rewrite MergeFields_app,
    (MergeFields_optional _ (λ x, (6, VARINT (x mod 2 ^ 64))) CFileFooterPB.set_compression).
  2:{ intros a ->. cbn [CFileFooterPB.MergeField Z.eqb Pos.eqb].
      rewrite set_enum_valid by exact Hc. reflexivity. }
  cbn [mbind option_bind].
  rewrite MergeFields_app, CFileFooterPB_merge_metadata by exact Hmd.
  cbn [mbind option_bind]. rewrite foldl_add_metadata.
  rewrite MergeFields_app,
    (MergeFields_optional _
       (λ x : bool, (8, VARINT ((if x then 1 else 0) mod 2 ^ 64)))
       CFileFooterPB.set_is_type_nullable).
  2:{ intros a ->. cbn [CFileFooterPB.MergeField Z.eqb Pos.eqb].
      destruct a; reflexivity. }
  cbn [mbind option_bind].
  rewrite (MergeFields_optional _
       (λ x, (9, LENGTH_DELIMITED (BlockPointerPB.SerializeToString x)))
       CFileFooterPB.set_dict_block_ptr).
  2:{ intros a ->. cbn [CFileFooterPB.MergeField Z.eqb Pos.eqb].
      replace (CFileFooterPB.dict_block_ptr _) with BlockPointerPB.Clear
        by (destruct d, e, n, p, v, c, b; reflexivity).
      rewrite BlockPointerPB_partial_round_trip by exact Hdp. reflexivity. }
  destruct d, e, n, p, v, c, b, dp; reflexivity.
Qed.

(** X7: a footer that has its required fields, whose numbers are in the
    ranges of their types and, for the enumerations, declared, with any
    list of metadata pairs and any of its optional fields, is parsed back
    from its serialization. *)
Theorem CFileFooterPB_round_trip m :
  CFileFooterPB_ranges m → CFileFooterPB.IsInitialized m = true →
  CFileFooterPB.ParseFromString (CFileFooterPB.SerializeToString m) = Some m.
Proof.
  intros Hr Hi. unfold CFileFooterPB.ParseFromString.
  rewrite CFileFooterPB_partial_round_trip by exact Hr.
  cbn [mbind option_bind]. rewrite Hi. reflexivity.
Qed.

End FooterRoundTrip.

(** ** cfile.proto: concatenation, unknown fields, declared numbers *)

Section FooterFacts.
Context `{CommonProto}.

(** X8: parsing two encoded footers put one after the other is parsing the
    second into the result of the first; so a field 3 put after an encoded
    footer replaces its num_values, and a field 7 put after it adds a pair at
    the end of its metadata, and nothing else changes. *)
Theorem CFileFooterPB_concatenation :
  (∀ m bs1 bs2 fs1,
     ReadMessage bs1 = Some fs1 →
     CFileFooterPB.MergePartialFromString m (bs1 ++ bs2)
     = m1 ← CFileFooterPB.MergePartialFromString m bs1;
       CFileFooterPB.MergePartialFromString m1 bs2) ∧
  (∀ bs f n,
     CFileFooterPB.ParseFromString bs = Some f → int64 n →
     CFileFooterPB.ParseFromString (bs ++ WriteVarintField 3 n)
     = Some (CFileFooterPB.set_num_values f n)) ∧
  (∀ bs f pair,
     CFileFooterPB.ParseFromString bs = Some f →
     FileMetadataPairPB_ranges pair → FileMetadataPairPB.IsInitialized pair = true →
     CFileFooterPB.ParseFromString
       (bs ++ WriteBytesField 7 (FileMetadataPairPB.SerializeToString pair))
     = Some (CFileFooterPB.add_metadata f pair)).
Proof.
  assert (∀ m bs1 bs2 fs1,
     ReadMessage bs1 = Some fs1 →
     CFileFooterPB.MergePartialFromString m (bs1 ++ bs2)
     = m1 ← CFileFooterPB.MergePartialFromString m bs1;
       CFileFooterPB.MergePartialFromString m1 bs2) as Hcat.
  { intros m bs1 bs2 fs1 H1. unfold CFileFooterPB.MergePartialFromString.
    rewrite (ReadMessage_app _ _ _ H1), H1. cbn [mbind option_bind].
    destruct (ReadMessage bs2) as [fs2|]; cbn [mbind option_bind].
    - apply MergeFields_app.
    - destruct (MergeFields _ m fs1); reflexivity. }
  split; [exact Hcat|]. split.
  - intros bs f n Hf Hn. apply CFileFooterPB_parsed in Hf as (fs & Hfs & Hm & Hi).
    unfold CFileFooterPB.ParseFromString. rewrite (Hcat _ _ _ _ Hfs).
    unfold CFileFooterPB.MergePartialFromString at 2. rewrite Hfs.
    cbn [mbind option_bind]. rewrite Hm. cbn [mbind option_bind].
    unfold CFileFooterPB.MergePartialFromString.
    rewrite ReadMessage_WriteVarintField by lia.
    cbn [mbind option_bind MergeFields CFileFooterPB.MergeField Z.eqb Pos.eqb].
    rewrite int64_of_varint_mod by exact Hn.
    replace (CFileFooterPB.IsInitialized (CFileFooterPB.set_num_values f n)) with true;
      [reflexivity|].
    unfold CFileFooterPB.IsInitialized in *.
    destruct f as [d e nv p v c md b dp]. cbn in *.
    destruct d, e, nv; try discriminate. cbn in *. symmetry. exact Hi.
  - intros bs f pair Hf Hr Hp. apply CFileFooterPB_parsed in Hf as (fs & Hfs & Hm & Hi).
    unfold CFileFooterPB.ParseFromString. rewrite (Hcat _ _ _ _ Hfs).
    unfold CFileFooterPB.MergePartialFromString at 2. rewrite Hfs.
    cbn [mbind option_bind]. rewrite Hm. cbn [mbind option_bind].
    unfold CFileFooterPB.MergePartialFromString.
    rewrite ReadMessage_WriteBytesField by (lia || apply Hr).
    cbn [mbind option_bind MergeFields CFileFooterPB.MergeField Z.eqb Pos.eqb].
    rewrite FileMetadataPairPB_partial_round_trip by exact Hr.
    cbn [mbind option_bind].
    replace (CFileFooterPB.IsInitialized (CFileFooterPB.add_metadata f pair)) with true;
      [reflexivity|].
    unfold CFileFooterPB.IsInitialized in *.
    destruct f as [d e nv p v c md b dp]. cbn in *.
    rewrite forallb_app. cbn. rewrite Hp.
    repeat (apply andb_prop in Hi as [Hi ?]).
    symmetry. repeat (apply andb_true_intro; split); auto.
Qed.

Lemma CFileFooterPB_MergeField_declared_numbers m f m' :
  CFileFooterPB.MergeField m f = Some m' →
  from_option (enum DataType_IsValid) True (CFileFooterPB.data_type_ m)
  ∧ from_option (enum EncodingType_IsValid) True (CFileFooterPB.encoding_ m)
  ∧ from_option int64 True (CFileFooterPB.num_values_ m)
  ∧ from_option (enum CompressionType_IsValid) True (CFileFooterPB.compression_ m) →
  from_option (enum DataType_IsValid) True (CFileFooterPB.data_type_ m')
  ∧ from_option (enum EncodingType_IsValid) True (CFileFooterPB.encoding_ m')
  ∧ from_option int64 True (CFileFooterPB.num_values_ m')
  ∧ from_option (enum CompressionType_IsValid) True (CFileFooterPB.compression_ m').
Proof.
  destruct f as [n [v|v|payload| |v]]; unfold CFileFooterPB.MergeField;
    repeat match goal with
           | |- context [n =? ?k] => destruct (Z.eqb_spec n k); [subst n|]
           end;
    unfold CFileFooterPB.set_enum;
    repeat match goal with
           | |- context [if ?valid (int32_of_varint ?v) then _ else _] =>
               destruct (valid (int32_of_varint v)) eqn:?
           | |- context [mbind _ ?o] => destruct o; cbn [mbind option_bind]
           end;
    intros [= <-] (Hd & He & Hn & Hc); cbn; repeat split; auto;
    try apply int32_of_varint_range; try apply int64_of_varint_range.
Qed.

(** X10: a decoded footer carries a data type and an encoding whose numbers
    are declared in their enumerations, a number of values that is a signed
    64-bit integer, and, when it carries a compression, one whose number is
    declared: an undeclared number never reaches the reader. *)
Theorem CFileFooterPB_decoded_numbers bs f :
  CFileFooterPB.ParseFromString bs = Some f →
  (∃ v, CFileFooterPB.data_type_ f = Some v ∧ DataType_IsValid v = true) ∧
  (∃ v, CFileFooterPB.encoding_ f = Some v ∧ EncodingType_IsValid v = true) ∧
  (∃ v, CFileFooterPB.num_values_ f = Some v ∧ int64 v) ∧
  (∀ v, CFileFooterPB.compression_ f = Some v → CompressionType_IsValid v = true).
Proof.
  intros Hf. apply CFileFooterPB_parsed in Hf as (fs & _ & Hm & Hi).
  apply (MergeFields_invariant _ _ CFileFooterPB_MergeField_declared_numbers) in Hm;
    [|cbn; tauto].
  destruct Hm as (Hd & He & Hn & Hc).
  unfold CFileFooterPB.IsInitialized in Hi.
  repeat (apply andb_prop in Hi as [Hi ?]).
  unfold CFileFooterPB.has_data_type, CFileFooterPB.has_encoding,
    CFileFooterPB.has_num_values in *.
  destruct (CFileFooterPB.data_type_ f) as [d|]; [|discriminate].
  destruct (CFileFooterPB.encoding_ f) as [e|]; [|discriminate].
  destruct (CFileFooterPB.num_values_ f) as [n|]; [|discriminate].
  cbn in Hd, He, Hn. repeat split.
  - exists d. split; [reflexivity|apply Hd].
  - exists e. split; [reflexivity|apply He].
  - exists n. split; [reflexivity|exact Hn].
  - intros v Hv. rewrite Hv in Hc. apply Hc.
Qed.

End FooterFacts.

(** ** The entity dump as a JSON document *)

Section DumpJson.
Import json.
Context `{MasterProto}.

Lemma table_object_json row :
  running_table row = true → table_object row = render (table_json row).
Proof.
  unfold running_table, table_object, VisitTable. intros ->. reflexivity.
Qed.

Lemma dump_peers_json peers :
  foldl dump_peer [] peers = concat (render <$> (peer_json <$> peers)).
Proof.
  induction peers as [|peer peers IH]; [reflexivity|].
  cbn [foldl]. rewrite dump_peers_appends, IH. reflexivity.
Qed.

Lemma tablet_object_json row :
  running_tablet row = true → tablet_object row = render (tablet_json row).
Proof.
  unfold running_tablet, tablet_object, VisitTablet. intros ->.
  cbn [negb fst]. unfold tablet_json.
  destruct (SysTabletsEntryPB.committed_consensus_state_ row.2) as [cs|];
    [|reflexivity].
  unfold JsonWriter.EndObject, JsonWriter.EndArray, JsonWriter.StartArray,
    JsonWriter.String, JsonWriter.StartObject.
  rewrite dump_peers_appends, dump_peers_json.
  unfold ConsensusStatePB.has_leader_uuid, ConsensusStatePB.leader_uuid.
  destruct (ConsensusStatePB.leader_uuid_ cs) as [leader|];
    cbn; rewrite <- ?app_assoc; reflexivity.
Qed.

Lemma concat_objects_json {Row : Type} (object : Row → JsonWriter.t)
    (document : Row → Json) (rows : list Row) :
  Forall (λ row, object row = render (document row)) rows →
  concat (object <$> rows) = concat (render <$> (document <$> rows)).
Proof.
  induction 1 as [|row rows Hrow _ IH]; [reflexivity|].
  rewrite !fmap_cons. cbn [concat]. rewrite Hrow, IH. reflexivity.
Qed.

(** X11: when both scans of the catalog return OK, the dump is a JSON
    document: one object with the array "tables" of the RUNNING tables and
    the array "tablets" of the RUNNING tablets, every table an object of its
    id, name and state, every tablet an object of its table id, id and state
    with, when it has a committed consensus state, the array "replicas" of
    its peers in their order and, when there is one, its "leader". *)
Theorem HandleDumpEntities_json cat :
  tables_scan cat = OK → tablets_scan cat = OK →
  HandleDumpEntities cat = render (entities_json cat).
Proof.
  intros Ht Hb. unfold HandleDumpEntities.
  rewrite VisitTables_objects, Ht. cbn [ok negb].
  rewrite VisitTablets_objects, Hb. cbn [ok negb].
  rewrite (concat_objects_json table_object table_json).
  2:{ apply Forall_forall. intros row Hrow.
      apply list_elem_of_filter in Hrow as [Hrow _]. apply table_object_json, Hrow. }
  rewrite (concat_objects_json tablet_object tablet_json).
  2:{ apply Forall_forall. intros row Hrow.
      apply list_elem_of_filter in Hrow as [Hrow _]. apply tablet_object_json, Hrow. }
  unfold JsonWriter.EndObject, JsonWriter.EndArray, JsonWriter.StartArray,
    JsonWriter.String, JsonWriter.StartObject.
  cbn. rewrite <- !app_assoc. cbn. rewrite <- !app_assoc. reflexivity.
Qed.

(** X12: when the scan of the tables does not return OK, or it does and the
    scan of the tablets does not, the dump is the error document alone, with
    the text of the status: nothing of what the visits wrote before is
    left. *)
Theorem HandleDumpEntities_error cat text :
  tables_scan cat = NotOK text
  ∨ (tables_scan cat = OK ∧ tablets_scan cat = NotOK text) →
  HandleDumpEntities cat = render (error_json text).
Proof.
  intros [Ht|[Ht Hb]]; unfold HandleDumpEntities.
  - rewrite VisitTables_objects, Ht. reflexivity.
  - rewrite VisitTables_objects, Ht. cbn [ok negb].
    rewrite VisitTablets_objects, Hb. reflexivity.
Qed.

End DumpJson.

(** ** The page of the tables *)

Section TablesPage.
Import tables_page.
Context `{MasterProto} `{WebUi}.

Lemma string_compare_refl s : String.compare s s = Eq.
Proof. apply OrderedTypeEx.String_as_OT.cmp_eq. reflexivity. Qed.

Lemma string_compare_trans a b c :
  String.compare a b = Lt → String.compare b c = Lt → String.compare a c = Lt.
Proof.
  intros Hab Hbc. apply OrderedTypeEx.String_as_OT.cmp_lt.
  apply OrderedTypeEx.String_as_OT.cmp_lt in Hab, Hbc.
  eapply OrderedTypeEx.String_as_OT.lt_trans; eassumption.
Qed.

Lemma string_compare_Gt a b : String.compare a b = Gt → String.compare b a = Lt.
Proof. intros Hab. rewrite String.compare_antisym, Hab. reflexivity. Qed.

Lemma string_compare_Lt_ne a b : String.compare a b = Lt → a ≠ b.
Proof. intros Hab ->. rewrite string_compare_refl in Hab. discriminate. Qed.

Lemma StringMap_set_Forall (P : string * string → Prop) key value m :
  P (key, value) → Forall P m → Forall P (StringMap.set key value m).
Proof.
  intros Hk. induction 1 as [|[key' value'] m Hx Hm IH]; cbn [StringMap.set].
  - constructor; [exact Hk|constructor].
  - destruct (String.compare key key'); repeat constructor; auto.
Qed.

(** [set] keeps the keys in strictly ascending order. *)
Lemma StringMap_set_sorted key value m :
  StronglySorted StringMap.lt m → StronglySorted StringMap.lt (StringMap.set key value m).
Proof.
  induction 1 as [|[key' value'] m Hm IH Hall]; cbn [StringMap.set].
  - repeat constructor.
  - destruct (String.compare key key') eqn:Hc.
    + apply String.compare_eq_iff in Hc as ->.
      constructor; [exact Hm|exact Hall].
    + constructor; [constructor; assumption|].
      constructor; [exact Hc|].
      eapply Forall_impl; [exact Hall|]. intros x Hx.
      unfold StringMap.lt in *. cbn [fst] in *.
      eapply string_compare_trans; eassumption.
    + constructor; [exact IH|].
      apply StringMap_set_Forall; [|exact Hall].
      unfold StringMap.lt. cbn [fst]. apply string_compare_Gt, Hc.
Qed.

(** After [set], the map holds the new entry, and of the old ones those
    under another key. *)
Lemma elem_of_StringMap_set key value m e :
  StronglySorted StringMap.lt m →
  e ∈ StringMap.set key value m ↔ e = (key, value) ∨ (e.1 ≠ key ∧ e ∈ m).
Proof.
  induction 1 as [|[key' value'] m Hm IH Hall]; cbn [StringMap.set].
  - rewrite list_elem_of_singleton. split; [auto|].
    intros [?|[_ Hin]]; [assumption|inversion Hin].
  - assert (∀ x, x ∈ m → String.compare key' x.1 = Lt) as Hlt.
    { intros x Hx. rewrite Forall_forall in Hall. apply (Hall x Hx). }
    destruct (String.compare key key') eqn:Hc.
    + apply String.compare_eq_iff in Hc as ->.
      rewrite !elem_of_cons. split.
      * intros [?|Hin]; [auto|]. right. split; [|auto].
        intros <-. apply Hlt in Hin. rewrite string_compare_refl in Hin. discriminate.
      * intros [?|[Hne [->|Hin]]]; [auto| |auto]. cbn [fst] in Hne. congruence.
    + rewrite !elem_of_cons. split.
      * intros [?|[->|Hin]]; [auto| |].
        -- right. split; [|auto]. cbn [fst]. intros ->.
           rewrite string_compare_refl in Hc. discriminate.
        -- right. split; [|auto]. intros <-. apply Hlt in Hin.
           pose proof (string_compare_trans _ _ _ Hc Hin) as Hrefl.
           rewrite string_compare_refl in Hrefl. discriminate.
      * intros [?|[_ ?]]; auto.
    + rewrite !elem_of_cons, IH. split.
      * intros [->|[?|[? ?]]]; [|auto|auto].
        right. split; [|auto]. cbn [fst]. intros ->.
        rewrite string_compare_refl in Hc. discriminate.
      * intros [?|[Hne [?|?]]]; auto.
Qed.

Lemma ordered_tables_snoc tables table :
  ordered_tables (tables ++ [table])
  = if negb (is_running table) then ordered_tables tables
    else StringMap.set (name table) (table_row table) (ordered_tables tables).
Proof. unfold ordered_tables. rewrite foldl_app. reflexivity. Qed.

Lemma ordered_tables_sorted tables :
  StronglySorted StringMap.lt (ordered_tables tables).
Proof.
  induction tables as [|table tables IH] using rev_ind; [constructor|].
  rewrite ordered_tables_snoc. destruct (is_running table); cbn [negb].
  - apply StringMap_set_sorted, IH.
  - exact IH.
Qed.

Lemma shown_snoc tables table key :
  shown (tables ++ [table]) key
  = if decide (is_running table = true ∧ name table = key) then Some table
    else shown tables key.
Proof.
  unfold shown. rewrite filter_app, filter_cons, filter_nil.
  case_decide; [apply last_snoc|]. rewrite app_nil_r. reflexivity.
Qed.

Lemma elem_of_ordered_tables tables key row :
  (key, row) ∈ ordered_tables tables ↔
  ∃ table, shown tables key = Some table ∧ row = table_row table.
Proof.
  revert key row. induction tables as [|table tables IH] using rev_ind; intros key row.
  - split; [intros Hin; inversion Hin|intros (table & Hs & _); discriminate].
  - rewrite ordered_tables_snoc, shown_snoc.
    destruct (is_running table) eqn:Hrun; cbn [negb].
    + rewrite elem_of_StringMap_set by apply ordered_tables_sorted. cbn [fst].
      rewrite IH. case_decide as Hd.
      * destruct Hd as [_ <-]. split.
        -- intros [[= ->]|[Hne _]]; [eauto|congruence].
        -- intros (table' & [= <-] & ->). auto.
      * split.
        -- intros [[= -> ->]|[_ ?]]; [|assumption]. exfalso. apply Hd. auto.
        -- intros Hex. right. split; [|exact Hex]. intros ->. apply Hd. auto.
    + rewrite IH. case_decide as Hd; [destruct Hd; discriminate|]. reflexivity.
Qed.

Lemma string_app_assoc (a b c : string) : (a +:+ b) +:+ c = a +:+ (b +:+ c).
Proof.
  induction a as [|x a IH]; [reflexivity|].
  change (String x ((a +:+ b) +:+ c) = String x (a +:+ (b +:+ c))).
  rewrite IH. reflexivity.
Qed.

Lemma rows_appended (m : StringMap.t) : ∀ output rest,
  foldl (λ output table, output +:+ table.2) output m +:+ rest
  = output +:+ foldr (λ table rest, table.2 +:+ rest) rest m.
Proof.
  induction m as [|entry m IH]; intros output rest; [reflexivity|].
  cbn [foldl foldr]. rewrite IH, string_app_assoc. reflexivity.
Qed.

(** X13: the page of the tables.  Without the leader lock it is the one line
    that says so.  With it, it is the heading, the rows of the map in the
    order of the map, and the end of the table; the keys of the map are in
    strictly ascending order; and the map holds a row under a name exactly
    when a running table carries the name, the row of the last such table
    that [GetAllTables] returned. *)
Theorem HandleCatalogManager_listing :
  (∀ master text,
     first_failed_status master = NotOK text →
     HandleCatalogManager master = "Master is not ready: " +:+ text) ∧
  (∀ master,
     first_failed_status master = OK →
     HandleCatalogManager master
     = "<h1>Tables</h1>" +:+ newline
       +:+ "<table class='table table-striped'>" +:+ newline
       +:+ "  <tr><th>Table Name</th><th>Table Id</th><th>State</th></tr>" +:+ newline
       +:+ foldr (λ table rest, table.2 +:+ rest) ("</table>" +:+ newline)
             (ordered_tables (GetAllTables master))) ∧
  (∀ tables, StronglySorted StringMap.lt (ordered_tables tables)) ∧
  (∀ tables key row,
     (key, row) ∈ ordered_tables tables ↔
     ∃ table, shown tables key = Some table ∧ row = table_row table).
Proof.
  split; [|split; [|split]].
  - intros master text Hs. unfold HandleCatalogManager. rewrite Hs. reflexivity.
  - intros master Hs. unfold HandleCatalogManager. rewrite Hs. cbn [ok negb].
    rewrite rows_appended, !string_app_assoc. reflexivity.
  - apply ordered_tables_sorted.
  - apply elem_of_ordered_tables.
Qed.

Lemma NoDup_fmap_eq {A B : Type} (f : A → B) (l : list A) x y :
  NoDup (f <$> l) → x ∈ l → y ∈ l → f x = f y → x = y.
Proof.
  induction l as [|a l IH]; intros Hnd Hx Hy Hf; [inversion Hx|].
  rewrite fmap_cons in Hnd. apply NoDup_cons in Hnd as [Ha Hnd].
  apply elem_of_cons in Hx as [->|Hx], Hy as [->|Hy]; auto.
  - exfalso. apply Ha. rewrite Hf. apply list_elem_of_fmap_2, Hy.
  - exfalso. apply Ha. rewrite <- Hf. apply list_elem_of_fmap_2, Hx.
Qed.

Lemma last_elem_of {A : Type} (l : list A) x : last l = Some x → x ∈ l.
Proof.
  induction l as [|a l IH] using rev_ind; [discriminate|].
  rewrite last_snoc. intros [= ->]. apply elem_of_app. right. apply list_elem_of_here.
Qed.

(** Under names that no two running tables share, the map holds the rows of
    the running tables. *)
Lemma elem_of_ordered_tables_NoDup tables key row :
  NoDup (name <$> filter (λ table, is_running table = true) tables) →
  (key, row) ∈ ordered_tables tables ↔
  ∃ table, table ∈ tables ∧ is_running table = true
           ∧ name table = key ∧ row = table_row table.
Proof.
  intros Hnd. rewrite elem_of_ordered_tables. unfold shown. split.
  - intros (table & Hlast & ->). apply last_elem_of in Hlast.
    apply list_elem_of_filter in Hlast as [[Hrun Hname] Hin]. eauto 6.
  - intros (table & Hin & Hrun & Hname & ->).
    destruct (last (filter (λ t, is_running t = true ∧ name t = key) tables))
      as [table'|] eqn:Hlast.
    + exists table'. split; [reflexivity|].
      apply last_elem_of in Hlast.
      apply list_elem_of_filter in Hlast as [[Hrun' Hname'] Hin'].
      f_equal. apply (NoDup_fmap_eq name _ _ _ Hnd).
      * apply list_elem_of_filter. auto.
      * apply list_elem_of_filter. auto.
      * congruence.
    + apply last_None in Hlast.
      assert (table ∈ filter (λ t, is_running t = true ∧ name t = key) tables)
        as Hf by (apply list_elem_of_filter; auto).
      rewrite Hlast in Hf. inversion Hf.
Qed.

Lemma StringMap_sorted_NoDup (m : StringMap.t) :
  StronglySorted StringMap.lt m → NoDup m.
Proof.
  induction 1 as [|e m Hm IH Hall]; constructor; [|exact IH].
  intros Hin. rewrite Forall_forall in Hall. specialize (Hall e Hin).
  unfold StringMap.lt in Hall. rewrite string_compare_refl in Hall. discriminate.
Qed.

(** X14: when no two running tables share a name, the page does not depend
    on the order in which [GetAllTables] returns the tables. *)
Theorem HandleCatalogManager_order_independent master master' :
  first_failed_status master = first_failed_status master' →
  GetAllTables master ≡ₚ GetAllTables master' →
  NoDup (name <$> filter (λ table, is_running table = true) (GetAllTables master)) →
  HandleCatalogManager master = HandleCatalogManager master'.
Proof.
  intros Hs Hp Hnd.
  assert (NoDup (name <$> filter (λ table, is_running table = true)
                            (GetAllTables master'))) as Hnd'.
  { rewrite <- Hp. exact Hnd. }
  assert (ordered_tables (GetAllTables master)
          = ordered_tables (GetAllTables master')) as Hsame.
  { apply (StronglySorted_unique_strong StringMap.lt);
      try apply ordered_tables_sorted.
    - intros x1 x2 _ _ H12 H21. unfold StringMap.lt in *.
      pose proof (string_compare_trans _ _ _ H12 H21) as Hrefl.
      rewrite string_compare_refl in Hrefl. discriminate.
    - apply NoDup_Permutation;
        try (apply StringMap_sorted_NoDup, ordered_tables_sorted).
      intros [key row].
      rewrite (elem_of_ordered_tables_NoDup _ _ _ Hnd),
              (elem_of_ordered_tables_NoDup _ _ _ Hnd').
      split; intros (table & Hin & Hrest); exists table;
        (split; [|exact Hrest]); [rewrite <- Hp|rewrite Hp]; exact Hin. }
  unfold HandleCatalogManager. rewrite Hs, Hsame. reflexivity.
Qed.

(** X15: CompareByRole is a strict weak ordering, which is what [std::sort]
    asks of it: no replica comes before itself, coming before is
    transitive, and so is being neither before nor after. *)
Theorem CompareByRole_strict_weak_ordering :
  (∀ a, CompareByRole a a = false) ∧
  (∀ a b c, CompareByRole a b = true → CompareByRole b c = true →
            CompareByRole a c = true) ∧
  (∀ a b c,
     CompareByRole a b = false → CompareByRole b a = false →
     CompareByRole b c = false → CompareByRole c b = false →
     CompareByRole a c = false ∧ CompareByRole c a = false).
Proof.
  unfold CompareByRole. repeat split; intros;
    repeat match goal with
           | H : (_ <? _) = _ |- _ => apply Z.ltb_lt in H || apply Z.ltb_ge in H
           end;
    try apply Z.ltb_lt; try apply Z.ltb_ge; lia.
Qed.

End TablesPage.

(** ** The examples of the round trips and of the pages *)

Section MoreExamples.
Import example_data example_messages.

(** X1 at the pointer (16, 32). *)
Lemma BlockPointerPB_round_trip_witness :
  BlockPointerPB.ParseFromString (BlockPointerPB.SerializeToString pointer) = Some pointer.
Proof. apply BlockPointerPB_round_trip; [in_ranges|reflexivity]. Defined.

(** X2 at the tree rooted at (16, 32). *)
Lemma BTreeInfoPB_round_trip_witness :
  BTreeInfoPB.ParseFromString (BTreeInfoPB.SerializeToString tree) = Some tree.
Proof. apply BTreeInfoPB_round_trip; [in_ranges|reflexivity]. Defined.

(** X3 at an INTERNAL trailer of seven entries. *)
Lemma IndexBlockTrailerPB_round_trip_witness :
  IndexBlockTrailerPB.ParseFromString (IndexBlockTrailerPB.SerializeToString trailer)
  = Some trailer.
Proof. apply IndexBlockTrailerPB_round_trip; [in_ranges|reflexivity]. Defined.

(** X4 at a header with three hash functions. *)
Lemma BloomBlockHeaderPB_round_trip_witness :
  BloomBlockHeaderPB.ParseFromString (BloomBlockHeaderPB.SerializeToString bloom)
  = Some bloom.
Proof. apply BloomBlockHeaderPB_round_trip; [in_ranges|reflexivity]. Defined.

(** X5 at a pair of one and two bytes. *)
Lemma FileMetadataPairPB_round_trip_witness :
  FileMetadataPairPB.ParseFromString (FileMetadataPairPB.SerializeToString pair)
  = Some pair.
Proof. apply FileMetadataPairPB_round_trip; [in_ranges|reflexivity]. Defined.

(** X6 at a header with two pairs, one of them of empty key and value. *)
Lemma CFileHeaderPB_round_trip_witness :
  CFileHeaderPB.ParseFromString (CFileHeaderPB.SerializeToString header) = Some header.
Proof. apply CFileHeaderPB_round_trip; [in_ranges|reflexivity]. Defined.

(** X7 at the footer that has a position index. *)
Lemma CFileFooterPB_round_trip_witness :
  @CFileFooterPB.ParseFromString example_common
    (CFileFooterPB.SerializeToString indexed_footer_pb)
  = Some indexed_footer_pb.
Proof.
  apply (@CFileFooterPB_round_trip example_common); [in_ranges|reflexivity].
Defined.

(** X8 at the bare footer followed by the indexed one, by a field 3, and by
    a field 7. *)
Lemma CFileFooterPB_concatenation_witness :
  @CFileFooterPB.MergePartialFromString example_common CFileFooterPB.Clear
    (bare_footer ++ indexed_footer)
  = (m1 ← @CFileFooterPB.MergePartialFromString example_common CFileFooterPB.Clear
            bare_footer;
     @CFileFooterPB.MergePartialFromString example_common m1 indexed_footer)
  ∧ @CFileFooterPB.ParseFromString example_common (bare_footer ++ WriteVarintField 3 7)
    = Some (CFileFooterPB.set_num_values bare_footer_pb 7)
  ∧ @CFileFooterPB.ParseFromString example_common
      (bare_footer ++ WriteBytesField 7 (FileMetadataPairPB.SerializeToString pair))
    = Some (CFileFooterPB.add_metadata bare_footer_pb pair).
Proof.
  destruct (@CFileFooterPB_concatenation example_common) as (Hcat & Hnum & Hpair).
  split; [|split].
  - eapply Hcat. vm_compute. reflexivity.
  - apply Hnum; [vm_compute; reflexivity|in_ranges].
  - apply Hpair; [vm_compute; reflexivity|in_ranges|reflexivity].
Defined.

(** X10 at the footer that has a position index. *)
Lemma CFileFooterPB_decoded_numbers_witness :
  (∃ v, CFileFooterPB.data_type_ indexed_footer_pb = Some v
        ∧ @DataType_IsValid example_common v = true) ∧
  (∃ v, CFileFooterPB.encoding_ indexed_footer_pb = Some v
        ∧ @EncodingType_IsValid example_common v = true) ∧
  (∃ v, CFileFooterPB.num_values_ indexed_footer_pb = Some v ∧ int64 v) ∧
  (∀ v, CFileFooterPB.compression_ indexed_footer_pb = Some v →
        @CompressionType_IsValid example_common v = true).
Proof.
  apply (@CFileFooterPB_decoded_numbers example_common indexed_footer).
  vm_compute. reflexivity.
Defined.

(** X11 at the catalog of the examples. *)
Lemma HandleDumpEntities_json_witness :
  @HandleDumpEntities example_master catalog
  = json.render (@json.entities_json example_master catalog).
Proof. apply (@HandleDumpEntities_json example_master); reflexivity. Defined.

(** X12 at the catalog whose scan of the tables fails. *)
Lemma HandleDumpEntities_error_witness :
  @HandleDumpEntities example_master failed_catalog
  = json.render (json.error_json "Timed out").
Proof. apply (@HandleDumpEntities_error example_master). left. reflexivity. Defined.

End MoreExamples.

Section PageExamples.
Import tables_page example_pages.

(** X13 at a master without the leader lock and at one with it and three
    tables. *)
Lemma HandleCatalogManager_listing_witness :
  @HandleCatalogManager example_master example_webui not_ready
  = "Master is not ready: " +:+ "Not the leader"
  ∧ @HandleCatalogManager example_master example_webui ready
    = "<h1>Tables</h1>" +:+ newline
      +:+ "<table class='table table-striped'>" +:+ newline
      +:+ "  <tr><th>Table Name</th><th>Table Id</th><th>State</th></tr>" +:+ newline
      +:+ foldr (λ table rest, table.2 +:+ rest) ("</table>" +:+ newline)
            (@ordered_tables example_master example_webui (GetAllTables ready)).
Proof.
  destruct (@HandleCatalogManager_listing example_master example_webui)
    as (Hnot & Hready & _ & _).
  split; [apply Hnot|apply Hready]; reflexivity.
Defined.

(** X14 at the same three tables in two orders. *)
Lemma HandleCatalogManager_order_independent_witness :
  @HandleCatalogManager example_master example_webui ready
  = @HandleCatalogManager example_master example_webui reordered.
Proof.
  apply (@HandleCatalogManager_order_independent example_master example_webui).
  - reflexivity.
  - cbn [GetAllTables ready reordered].
    etransitivity; [apply perm_swap|]. etransitivity; [apply perm_skip, perm_swap|].
    etransitivity; [apply perm_swap|]. apply perm_skip, perm_swap.
  - apply (bool_decide_unpack _). vm_compute. reflexivity.
Defined.

(** X15 at a leader, a follower and a second follower. *)
Lemma CompareByRole_strict_weak_ordering_witness :
  CompareByRole ("a", 1) ("c", 3) = true
  ∧ CompareByRole ("b", 2) ("d", 2) = false ∧ CompareByRole ("d", 2) ("b", 2) = false.
Proof.
  destruct CompareByRole_strict_weak_ordering as (_ & Htrans & Hequiv). split.
  - apply (Htrans _ ("b", 2)); reflexivity.
  - apply (Hequiv _ ("c", 2)); reflexivity.
Defined.

End PageExamples.

Section PointerExamples.
Import spec block_pointers example_messages.

Lemma WriteVarint64_nonempty v rest : WriteVarint64 v ++ rest ≠ [].
Proof.
  unfold WriteVarint64. cbn [WriteVarint]. destruct (_ <? 128); discriminate.
Qed.

(** The encoder of the examples gives at least one byte for every complete
    block. *)
Lemma example_block_bytes_nonempty c (b : Block Z) :
  complete b → block_bytes c b ≠ [].
Proof.
  destruct b as [first values|table|[[n|]] values|entries trailer];
    cbn [complete block_bytes example.format example.write_block]; intros Hb.
  - apply WriteVarint64_nonempty.
  - apply WriteVarint64_nonempty.
  - unfold BloomBlockHeaderPB.SerializeToString, WriteVarintField, WriteTag.
    cbn [BloomBlockHeaderPB.num_hash_functions_ WriteOptional from_option].
    rewrite <- !app_assoc. apply WriteVarint64_nonempty.
  - discriminate Hb.
  - intros Heq. apply (f_equal length) in Heq. rewrite !length_app in Heq.
    cbn [length] in Heq. lia.
Qed.


End PointerExamples.
